(** * Dictionary Forge: the technical coherence engine and its clients

    A shallow embedding of the Python sources
      - [src/logic/coherence.py]                    (type taxonomy, visibility predicate)
      - [src/components/variable_form/handlers.py]  (commit validation, ledger deletion)
      - [src/components/template_modal.py]          (template vocabulary sanitizer)
      - [src/components/bulk_action_ui.py] and
        [src/components/edition_modal.py]           (batch editor: coherence cascade)
    followed by the properties established about them.

    Python dictionaries are finite maps ([gmap string _]); their equality is
    extensional, like Python's [==] on dicts.  Python exceptions are the
    [Raise] branch of [result]. *)

From stdpp Require Import gmap strings list fin_maps pretty.

#[local] Set Warnings "-register-all,-clear-no-such-hyp".
#[local] Open Scope string_scope.

(* ===================================================================== *)
(** ** Python values                                                      *)
(* ===================================================================== *)

(** Scalars: [None], booleans, integers and strings.  Floating-point
    numbers are not modelled; no function below computes on a number.  A
    string is a sequence of characters, one [ascii] per character: the
    strings modelled are those over the characters with code points 0 to
    255. *)
Inductive atom : Type :=
  | ANone
  | ABool (b : bool)
  | AInt (n : Z)
  | AStr (s : string).

(** JSON-like data: scalars, lists and string-keyed dictionaries. *)
Inductive value : Type :=
  | VAtom (a : atom)
  | VList (xs : list value)
  | VDict (d : gmap string value).

Abbreviation VNone := (VAtom ANone).
Abbreviation VBool b := (VAtom (ABool b)).
Abbreviation VInt n := (VAtom (AInt n)).
Abbreviation VStr s := (VAtom (AStr s)).

Inductive exn : Type :=
  | IndexError
  | TypeError
  | AttributeError
  | InvalidReference.  (* a reference into the object store that points nowhere;
                          unreachable from Python, kept so that every store
                          operation is defined on every store *)

Inductive result (A : Type) : Type :=
  | Ok (a : A)
  | Raise (e : exn).
Arguments Ok {A} a.
Arguments Raise {A} e.

(** Sequencing: an exception raised by the first computation propagates.
    Written [x ← r; k] below. *)
#[global] Instance result_bind : MBind result := λ A B k r,
  match r with
  | Ok a => k a
  | Raise e => Raise e
  end.

(** [a == "literal"] for a scalar [a]. *)
Definition atom_is (a : atom) (s : string) : bool :=
  match a with
  | AStr t => bool_decide (t = s)
  | _ => false
  end.

(** [v == "literal"]: only a string equals a string literal. *)
Definition is_str (v : value) (s : string) : bool :=
  match v with
  | VAtom a => atom_is a s
  | _ => false
  end.

(** [s in [lit1, lit2, ...]] for a string [s]. *)
Definition str_in (s : string) (l : list string) : bool :=
  bool_decide (s ∈ l).

(** [v in [lit1, lit2, ...]] for an arbitrary value [v]. *)
Definition val_in (v : value) (l : list string) : bool :=
  existsb (is_str v) l.

(** Python truthiness ([if v:]). *)
Definition atom_truthy (a : atom) : bool :=
  match a with
  | ANone => false
  | ABool b => b
  | AInt n => negb (n =? 0)%Z
  | AStr s => negb (bool_decide (s = ""))
  end.

Definition truthy (v : value) : bool :=
  match v with
  | VAtom a => atom_truthy a
  | VList xs => match xs with [] => false | _ => true end
  | VDict d => negb (bool_decide (d = ∅))
  end.

(* ===================================================================== *)
(** ** src/logic/coherence.py                                             *)
(* ===================================================================== *)

(** The [mapping] literal of [get_filtered_data_types]. *)
Definition data_type_mapping : gmap string (list string) :=
  list_to_map
    [ ("continuous", ["float64"]);
      ("discrete", ["int64"]);
      ("nominal", ["category"; "string"; "bool"]);
      ("ordinal", ["category"]);
      ("binary", ["bool"; "int64"]);
      ("text", ["string"]);
      ("time_index", ["datetime64"]);
      ("spatial", ["float64"; "string"]) ].

(** [mapping.get(analytical_type, ["object"])].  A key that is not a string
    is absent from the table; a list or a dict cannot be hashed. *)
Definition get_filtered_data_types (analytical_type : value) : result (list string) :=
  match analytical_type with
  | VStr s => Ok (default ["object"] (data_type_mapping !! s))
  | VAtom _ => Ok ["object"]
  | _ => Raise TypeError
  end.

Definition all_roles : list string :=
  ["feature"; "target"; "id"; "time_index"; "group"; "metadata"].

(** [data_type] defaults to [None] in the source; pass [VNone] for it. *)
Definition get_filtered_roles (analytical_type data_type : value) : list string :=
  if is_str analytical_type "time_index" || is_str data_type "datetime64" then ["time_index"]
  else if is_str analytical_type "text" then ["feature"; "metadata"]
  else if is_str analytical_type "spatial" then ["feature"; "metadata"]
  else if is_str analytical_type "binary" then ["feature"; "target"; "group"; "metadata"]
  else if is_str analytical_type "continuous" then ["feature"; "target"; "group"; "metadata"]
  else if is_str analytical_type "nominal" then ["feature"; "target"; "id"; "group"; "metadata"]
  else all_roles.

Definition binary_forbidden : list string :=
  ["min_value"; "max_value"; "regex_pattern"; "allowed_values"; "ordinal_mapping";
   "unique"; "outlier_strategy"; "outlier_threshold"; "standardization_strategy";
   "infinite_value_handling"; "text_normalization"].

Definition time_index_forbidden : list string :=
  ["allowed_values"; "regex_pattern"; "outlier_strategy"; "outlier_threshold";
   "ordinal_mapping"; "standardization_strategy"; "infinite_value_handling";
   "text_normalization"; "encoding_strategy"].

(** The per-data-type block guarded by [if data_type:]; [true] means one of
    its three tests returned [False]. *)
Definition data_type_suppresses (field_name : string) (data_type : value) : bool :=
  (is_str data_type "string" &&
     str_in field_name ["outlier_strategy"; "outlier_threshold"; "ordinal_mapping";
                        "standardization_strategy"])
  || (is_str data_type "category" &&
        str_in field_name ["min_value"; "max_value"; "regex_pattern"; "outlier_strategy";
                           "outlier_threshold"; "standardization_strategy"])
  || (is_str data_type "bool" &&
        str_in field_name ["min_value"; "max_value"; "regex_pattern"; "allowed_values";
                           "unique"; "outlier_strategy"; "outlier_threshold";
                           "ordinal_mapping"; "standardization_strategy"]).

(** Every [if ...: return False] of the source is one link of the chain, in
    source order; the final [return True] is the last branch. *)
Definition is_field_visible (field_name : string) (analytical_type data_type : value) : bool :=
  if str_in field_name ["plot_color"; "formatting"] then false
  else if val_in analytical_type ["continuous"; "discrete"] &&
          str_in field_name ["allowed_values"; "regex_pattern"; "ordinal_mapping";
                             "text_normalization"; "encoding_strategy"] then false
  else if is_str analytical_type "binary" && str_in field_name binary_forbidden then false
  else if is_str analytical_type "nominal" &&
          str_in field_name ["outlier_strategy"; "outlier_threshold"; "ordinal_mapping";
                             "standardization_strategy"; "infinite_value_handling";
                             "text_normalization"] then false
  else if is_str analytical_type "text" &&
          str_in field_name ["outlier_strategy"; "outlier_threshold"; "ordinal_mapping";
                             "standardization_strategy"; "infinite_value_handling";
                             "encoding_strategy"] then false
  else if is_str analytical_type "time_index" && str_in field_name time_index_forbidden then false
  else if (if is_str analytical_type "ordinal"
           then str_in field_name ["regex_pattern"; "outlier_strategy"; "outlier_threshold";
                                   "standardization_strategy"; "infinite_value_handling";
                                   "text_normalization"]
           else bool_decide (field_name = "ordinal_mapping")) then false
  else if str_in field_name ["standardization_strategy"; "infinite_value_handling"] &&
          negb (is_str analytical_type "continuous") then false
  else if bool_decide (field_name = "text_normalization") &&
          negb (is_str analytical_type "text") then false
  else if bool_decide (field_name = "encoding_strategy") &&
          negb (val_in analytical_type ["nominal"; "ordinal"; "binary"]) then false
  else if truthy data_type && data_type_suppresses field_name data_type then false
  else true.

(* ===================================================================== *)
(** ** Python lists and dictionaries                                      *)
(* ===================================================================== *)

#[global] Instance atom_eq_dec : EqDecision atom.
Proof. solve_decision. Defined.

(** The position [l[i]] denotes: a negative index counts from the end. *)
Definition py_index {A} (l : list A) (i : Z) : option nat :=
  let n := Z.of_nat (length l) in
  if bool_decide (0 ≤ i < n)%Z then Some (Z.to_nat i)
  else if bool_decide (- n ≤ i < 0)%Z then Some (Z.to_nat (n + i))
  else None.

(** [l[i]] *)
Definition py_getitem {A} (l : list A) (i : Z) : result A :=
  match py_index l i with
  | Some n => match l !! n with Some x => Ok x | None => Raise IndexError end
  | None => Raise IndexError
  end.

(** [l[i] = x] *)
Definition py_setitem {A} (l : list A) (i : Z) (x : A) : result (list A) :=
  match py_index l i with
  | Some n => Ok (<[n := x]> l)
  | None => Raise IndexError
  end.

(** [l.pop(i)]: the list that remains. *)
Definition py_pop {A} (l : list A) (i : Z) : result (list A) :=
  match py_index l i with
  | Some n => Ok (delete n l)
  | None => Raise IndexError
  end.

(** [v.get(k, dflt)]; only a dict has [get]. *)
Definition py_get (v : value) (k : string) (dflt : value) : result value :=
  match v with
  | VDict d => Ok (default dflt (d !! k))
  | _ => Raise AttributeError
  end.

(** [len(v)].  The length of a string is its number of characters. *)
Definition py_len (v : value) : result nat :=
  match v with
  | VStr s => Ok (String.length s)
  | VList xs => Ok (length xs)
  | VDict d => Ok (size d)
  | VAtom _ => Raise TypeError
  end.

(** Set membership identifies [True] with [1] and [False] with [0]. *)
Definition hash_key (a : atom) : atom :=
  match a with
  | ABool b => AInt (if b then 1 else 0)
  | _ => a
  end.

Fixpoint hash_keys (l : list value) : result (list atom) :=
  match l with
  | [] => Ok []
  | VAtom a :: l' => ks ← hash_keys l'; Ok (hash_key a :: ks)
  | _ :: _ => Raise TypeError
  end.

(** [len(set(l))]; a list or a dict among the elements is unhashable. *)
Definition len_set (l : list value) : result nat :=
  ks ← hash_keys l; Ok (length (remove_dups ks)).

(* ===================================================================== *)
(** ** src/components/variable_form/handlers.py                           *)
(* ===================================================================== *)

(** The part of [st.session_state] the handlers read and write.  The
    Ledger is [variables]; [editing_index] is [None] outside edit mode. *)
Record session (A : Type) : Type := Session {
  variables : list A;
  editing_index : option Z;
  cat_rows_hydrated : bool;
}.
Arguments Session {A} _ _ _.
Arguments variables {A} _.
Arguments editing_index {A} _.
Arguments cat_rows_hydrated {A} _.

Section handlers.
(** [ast.literal_eval]; [None] when it raises.  Python's own parser, taken
    as given. *)
Variable literal_eval : string → option value.

(** The [if current_dt == "category":] block: [Ok false] is its
    [return False], [Ok true] is falling through. *)
Definition ordinal_rank_check (constraints current_at current_dt : value) : result bool :=
  if is_str current_dt "category" then
    mapping ← py_get constraints "ordinal_mapping" (VDict ∅);
    let mapping :=
      match mapping with
      | VStr s => default (VDict ∅) (literal_eval s)
      | _ => mapping
      end in
    match mapping with
    | VDict m =>
        let ranks := (map_to_list m).*2 in
        if is_str current_at "ordinal" then
          k ← len_set ranks;
          Ok (bool_decide (length ranks = k))
        else Ok true
    | _ => Ok true
    end
  else Ok true.

(** Step 2 of [process_form_submission], from [is_locked_binary = ...]
    to the last [return False]: [Ok true] when no check rejects. *)
Definition logic_validation (v_inputs : gmap string value) (current_at current_dt : value)
    : result bool :=
  let is_locked_binary := is_str current_at "binary" || is_str current_dt "bool" in
  let constraints := default (VDict ∅) (v_inputs !! "constraints") in
  allowed_labels ← py_get constraints "allowed_values" (VList []);
  if is_locked_binary then
    n ← py_len allowed_labels;
    if bool_decide (n ≠ 2%nat) then Ok false
    else ordinal_rank_check constraints current_at current_dt
  else ordinal_rank_check constraints current_at current_dt.

(** Step 3 and 4: replace the edited entry or append, then reset the flags. *)
Definition commit (v_inputs : gmap string value) (s : session (gmap string value))
    : result (session (gmap string value)) :=
  match editing_index s with
  | Some editing_idx =>
      vars ← py_setitem (variables s) editing_idx v_inputs;
      Ok (Session vars None false)
  | None =>
      Ok (Session (variables s ++ [v_inputs])%list None false)
  end.

(** Returns what the function returns (or raises) and the session state
    it leaves behind.  The [st.error] and [st.success] messages are not
    part of the state. *)
Definition process_form_submission (v_inputs : gmap string value)
    (current_at current_dt : value) (s : session (gmap string value))
    : result bool * session (gmap string value) :=
  if negb (truthy (default VNone (v_inputs !! "name"))) then (Ok false, s)
  else
    match logic_validation v_inputs current_at current_dt with
    | Raise e => (Raise e, s)
    | Ok false => (Ok false, s)
    | Ok true =>
        match commit v_inputs s with
        | Raise e => (Raise e, s)
        | Ok s' => (Ok true, s')
        end
    end.
End handlers.

(** [delete_variable(index)]; [A] is whatever the Ledger holds.  The name
    read from the entry only feeds the success message. *)
Definition delete_variable {A} (index : Z) (s : session A) : result (session A) :=
  if bool_decide (0 ≤ index < Z.of_nat (length (variables s)))%Z then
    vars ← py_pop (variables s) index;
    match editing_index s with
    | Some e =>
        if bool_decide (e = index) then Ok (Session vars None false)
        else if bool_decide (e > index)%Z then
          Ok (Session vars (Some (e - 1)%Z) (cat_rows_hydrated s))
        else Ok (Session vars (Some e) (cat_rows_hydrated s))
    | None => Ok (Session vars None (cat_rows_hydrated s))
    end
  else Ok s.

(* ===================================================================== *)
(** ** src/components/template_modal.py: the data mismatch sanitizer      *)
(* ===================================================================== *)

(** The characters [str.lower] changes: the capitals A to Z and, past
    ASCII, the accented capitals U+00C0 to U+00DE without the
    multiplication sign U+00D7. *)
Definition is_upper (c : Ascii.ascii) : bool :=
  let n := Ascii.N_of_ascii c in
  (((65 <=? n) && (n <=? 90)) || ((192 <=? n) && (n <=? 214))
   || ((216 <=? n) && (n <=? 222)))%N.

(** [c.lower()]: the small letter of each of these capitals is 32 code
    points further on; every other character is kept. *)
Definition lower_char (c : Ascii.ascii) : Ascii.ascii :=
  if is_upper c then Ascii.ascii_of_N (Ascii.N_of_ascii c + 32) else c.

(** [s.lower()] *)
Fixpoint lower (s : string) : string :=
  match s with
  | EmptyString => EmptyString
  | String c s' => String (lower_char c) (lower s')
  end.

(** [needle in hay] for two strings. *)
Fixpoint contains (needle hay : string) : bool :=
  String.prefix needle hay ||
  match hay with
  | EmptyString => false
  | String _ hay' => contains needle hay'
  end.

Definition at_map : gmap string string :=
  list_to_map
    [ ("categorical", "nominal"); ("boolean", "binary");
      ("numeric", "continuous"); ("datetime", "time_index") ].

Definition dt_map : gmap string string :=
  list_to_map
    [ ("boolean", "bool"); ("float", "float64"); ("integer", "int64");
      ("string", "string"); ("category", "category") ].

Definition role_map : gmap string string :=
  list_to_map
    [ ("dimension", "feature"); ("measure", "target"); ("identifier", "id") ].

Section sanitizer.
(** [str(x)] for an [x] that is not already a string: Python's own
    rendering, taken as given. *)
Variable str_of_object : value → string.

Definition py_str (v : value) : string :=
  match v with
  | VStr s => s
  | _ => str_of_object v
  end.

(** [raw = str(payload.get(key, "")).lower(); table.get(raw, raw)] *)
Definition sanitize_term (table : gmap string string) (key : string)
    (payload : gmap string value) : string :=
  let raw := lower (py_str (default (VStr "") (payload !! key))) in
  default raw (table !! raw).

(** Step 4, [if "constraints" in payload: if "is_nullable" in ...]; the
    [in] test and [pop("is_nullable")] on something that is not a dict
    behave as Python has them. *)
Definition standardize_constraint_keys (payload : gmap string value)
    : result (gmap string value) :=
  match payload !! "constraints" with
  | None => Ok payload
  | Some (VDict c) =>
      match c !! "is_nullable" with
      | Some x =>
          Ok (<["constraints" := VDict (<["nullable" := x]> (delete "is_nullable" c))]> payload)
      | None => Ok payload
      end
  | Some (VList xs) =>
      if existsb (λ v, is_str v "is_nullable") xs then Raise TypeError else Ok payload
  | Some (VStr s) =>
      if contains "is_nullable" s then Raise AttributeError else Ok payload
  | Some (VAtom _) => Raise TypeError
  end.

(** The block between the overwrite guards and the hand-off. *)
Definition sanitize (hydrate_payload : gmap string value) : result (gmap string value) :=
  let p1 := <["analytical_type" := VStr (sanitize_term at_map "analytical_type" hydrate_payload)]>
              hydrate_payload in
  let p2 := <["data_type" := VStr (sanitize_term dt_map "data_type" p1)]> p1 in
  let p3 := <["role" := VStr (sanitize_term role_map "role" p2)]> p2 in
  standardize_constraint_keys p3.
End sanitizer.

(* ===================================================================== *)
(** ** The object store                                                   *)
(* ===================================================================== *)

(** The batch editor copies variables and then writes into the copies, so
    here dictionaries are objects with an identity.  A committed variable is
    a dict object; each of its entries is a scalar, a list, or a reference to
    a second dict object, its metadata section.  What a section holds is
    plain data. *)
Definition loc := nat.

Inductive entry : Type :=
  | EAtom (a : atom)
  | EList (xs : list value)
  | ESec (l : loc).

Record store : Type := Store {
  var_objs : gmap loc (gmap string entry);
  sec_objs : gmap loc (gmap string value);
}.

Definition get_var (h : store) (lv : loc) : result (gmap string entry) :=
  match var_objs h !! lv with
  | Some var => Ok var
  | None => Raise InvalidReference
  end.

Definition get_sec (h : store) (ls : loc) : result (gmap string value) :=
  match sec_objs h !! ls with
  | Some sec => Ok sec
  | None => Raise InvalidReference
  end.

Definition set_var (h : store) (lv : loc) (var : gmap string entry) : store :=
  Store (<[lv := var]> (var_objs h)) (sec_objs h).

Definition set_sec (h : store) (ls : loc) (sec : gmap string value) : store :=
  Store (var_objs h) (<[ls := sec]> (sec_objs h)).

(** The value an entry evaluates to. *)
Definition read_entry (h : store) (e : entry) : result value :=
  match e with
  | EAtom a => Ok (VAtom a)
  | EList xs => Ok (VList xs)
  | ESec ls => sec ← get_sec h ls; Ok (VDict sec)
  end.

(** [for k, v in src.items(): dst[k] = v] *)
Definition dict_update {V} (dst src : gmap string V) : gmap string V :=
  map_fold (λ k v acc, <[k := v]> acc) dst src.

(** One entry of [copy.deepcopy(var)].  [memo] maps each section object
    already copied to its copy, so that a section reachable under two keys
    is copied once, as [deepcopy] does. *)
Definition copy_entry (old : gmap loc (gmap string value)) (k : string) (e : entry)
    (acc : result (gmap loc loc * gmap loc (gmap string value) * gmap string entry))
    : result (gmap loc loc * gmap loc (gmap string value) * gmap string entry) :=
  '(memo, secs, out) ← acc;
  match e with
  | ESec l =>
      match memo !! l with
      | Some l' => Ok (memo, secs, <[k := ESec l']> out)
      | None =>
          match old !! l with
          | Some sec =>
              let l' := fresh (dom secs) in
              Ok (<[l := l']> memo, <[l' := sec]> secs, <[k := ESec l']> out)
          | None => Raise InvalidReference
          end
      end
  | _ => Ok (memo, secs, <[k := e]> out)
  end.

(** [copy.deepcopy(variables[idx])]: a new variable object with new section
    objects; returns the copy's location. *)
Definition deepcopy (h : store) (lv : loc) : result (loc * store) :=
  var ← get_var h lv;
  '(_, secs, out) ← map_fold (copy_entry (sec_objs h)) (Ok (∅, sec_objs h, ∅)) var;
  let lv' := fresh (dom (var_objs h)) in
  Ok (lv', Store (<[lv' := out]> (var_objs h)) secs).

(** The content of a variable object, sections resolved: what serialising
    the Ledger entry would show. *)
Definition snapshot_entry (h : store) (e : entry) : option value :=
  match e with
  | EAtom a => Some (VAtom a)
  | EList xs => Some (VList xs)
  | ESec ls => VDict <$> sec_objs h !! ls
  end.

Definition snapshot (h : store) (lv : loc) : option (gmap string value) :=
  match var_objs h !! lv with
  | Some var =>
      if decide (map_Forall (λ _ e, is_Some (snapshot_entry h e)) var)
      then Some (omap (snapshot_entry h) var)
      else None
  | None => None
  end.

(* ===================================================================== *)
(** ** src/components/bulk_action_ui.py, Phase 3 (the same loop is in
       src/components/edition_modal.py)                                   *)
(* ===================================================================== *)

(** [{"root": {...}, "nested": {section: {...}}}].  The editor puts scalars
    in [root]. *)
Record patch : Type := Patch {
  root : gmap string atom;
  nested : gmap string (gmap string value);
}.

Definition empty_patch : patch := Patch ∅ ∅.

(** The session state of the batch editor, with the store its references
    point into. *)
Record batch_state : Type := BatchState {
  ledger : list loc;                  (* st.session_state["variables"] *)
  batch_selected_indices : list Z;
  batch_patch : patch;
  objects : store;
}.

(** [for k, v in patch["root"].items(): var[k] = v] on the object at [lv]. *)
Definition apply_root (p : patch) (lv : loc) (h : store) : result store :=
  var ← get_var h lv;
  Ok (set_var h lv (dict_update var (EAtom <$> root p))).

(** One round of [for section, fields in patch["nested"].items()]. *)
Definition apply_nested_section (lv : loc) (section : string) (fields : gmap string value)
    (acc : result store) : result store :=
  h ← acc;
  if bool_decide (fields = ∅) then Ok h
  else
    var ← get_var h lv;
    '(ls, h) ← match var !! section with
               | None =>
                   let ls := fresh (dom (sec_objs h)) in
                   Ok (ls, set_var (set_sec h ls ∅) lv (<[section := ESec ls]> var))
               | Some (ESec ls) => Ok (ls, h)
               | Some _ => Raise TypeError   (* item assignment on a str, list, ... *)
               end;
    sec ← get_sec h ls;
    Ok (set_sec h ls (dict_update sec fields)).

Definition apply_nested (p : patch) (lv : loc) (h : store) : result store :=
  map_fold (apply_nested_section lv) (Ok h) (nested p).

Definition metadata_sections : list string :=
  ["constraints"; "cleaning"; "governance"; "database_mapping"].

(** [keys_to_remove], in the order the model enumerates a dict. *)
Definition keys_to_remove (new_at new_dt : value) (sec : gmap string value) : list string :=
  filter (λ k, is_field_visible k new_at new_dt = false) (map_to_list sec).*1.

(** [for k in keys_to_remove: del d[k]] *)
Definition del_keys (sec : gmap string value) (ks : list string) : gmap string value :=
  foldl (λ d k, delete k d) sec ks.

(** One round of [for section in [...]]: the body of [if section in var:]. *)
Definition prune_section (new_at new_dt : value) (lv : loc) (section : string)
    (h : store) (pruned_for_this_var : list string) : result (store * list string) :=
  var ← get_var h lv;
  match var !! section with
  | None => Ok (h, pruned_for_this_var)
  | Some (ESec ls) =>
      sec ← get_sec h ls;
      let ks := keys_to_remove new_at new_dt sec in
      Ok (set_sec h ls (del_keys sec ks), (pruned_for_this_var ++ ks)%list)
  | Some _ => Raise AttributeError   (* no [keys()] on a str, list, ... *)
  end.

Fixpoint prune_sections (new_at new_dt : value) (lv : loc) (sections : list string)
    (h : store) (pruned_for_this_var : list string) : result (store * list string) :=
  match sections with
  | [] => Ok (h, pruned_for_this_var)
  | section :: rest =>
      '(h', pruned') ← prune_section new_at new_dt lv section h pruned_for_this_var;
      prune_sections new_at new_dt lv rest h' pruned'
  end.

(** The block under [# COHERENCE CASCADE]: the types are read once, with
    their defaults, then the four sections are pruned. *)
Definition prune_step (lv : loc) (h : store) : result (store * list string) :=
  var ← get_var h lv;
  new_at ← read_entry h (default (EAtom (AStr "continuous")) (var !! "analytical_type"));
  new_dt ← read_entry h (default (EAtom (AStr "float64")) (var !! "data_type"));
  prune_sections new_at new_dt lv metadata_sections h [].

(** The body of [for idx in st.session_state["batch_selected_indices"]]:
    what it appends to [updated_variables]. *)
Definition cascade_target (p : patch) (variables : list loc) (idx : Z) (h : store)
    : result ((Z * loc * list string) * store) :=
  lv0 ← py_getitem variables idx;
  '(lv, h) ← deepcopy h lv0;
  h ← apply_root p lv h;
  h ← apply_nested p lv h;
  '(h, pruned_for_this_var) ← prune_step lv h;
  Ok ((idx, lv, pruned_for_this_var), h).

Fixpoint compute_updates (p : patch) (variables : list loc) (selected : list Z) (h : store)
    : result (list (Z * loc * list string) * store) :=
  match selected with
  | [] => Ok ([], h)
  | idx :: rest =>
      '(u, h) ← cascade_target p variables idx h;
      '(us, h) ← compute_updates p variables rest h;
      Ok (u :: us, h)
  end.

(** [len(patch["root"]) + sum(len(v) for v in patch["nested"].values())] *)
Definition active_updates (p : patch) : nat :=
  size (root p) + map_fold (λ _ fields n, size fields + n) 0 (nested p).

(** What Phase 3 shows before any button is pressed. *)
Inductive preview : Type :=
  | NothingSelected                 (* "No variables selected. Go to Phase 1." *)
  | NoUpdates                       (* "No updates defined. ..." *)
  | Pruning (updated_variables : list (Z * loc * list string)) (total_pruned_keys : nat).

(** Phase 3 up to the commit button.  The session is read, never assigned;
    the store is the only thing that can change. *)
Definition review (st : batch_state) : result (preview * store) :=
  if bool_decide (length (batch_selected_indices st) = 0) then Ok (NothingSelected, objects st)
  else if bool_decide (active_updates (batch_patch st) = 0) then Ok (NoUpdates, objects st)
  else
    '(us, h) ← compute_updates (batch_patch st) (ledger st) (batch_selected_indices st)
                 (objects st);
    Ok (Pruning us (sum_list ((λ u, length u.2) <$> us)), h).

(** [for idx, new_var, _ in updated_variables: variables[idx] = new_var] *)
Fixpoint replace_entries (variables : list loc) (us : list (Z * loc * list string))
    : result (list loc) :=
  match us with
  | [] => Ok variables
  | (idx, new_var, _) :: rest =>
      variables' ← py_setitem variables idx new_var;
      replace_entries variables' rest
  end.

(** Pressing "Confirm & Apply Batch Update". *)
Definition confirm (us : list (Z * loc * list string)) (h : store) (st : batch_state)
    : result batch_state :=
  variables' ← replace_entries (ledger st) us;
  Ok (BatchState variables' [] empty_patch h).

(* ===================================================================== *)
(** ** Vocabulary of the statements, and worked data                     *)
(* ===================================================================== *)

Definition known_analytical_types : list string :=
  ["continuous"; "discrete"; "nominal"; "ordinal"; "binary"; "text"; "time_index"; "spatial"].

(** [constraints.allowed_values] is present and [len] gives 2 for it. *)
Definition has_two_labels (v_inputs : gmap string value) : Prop :=
  ∃ (c : gmap string value) (labels : value),
    v_inputs !! "constraints" = Some (VDict c)
    ∧ c !! "allowed_values" = Some labels
    ∧ py_len labels = Ok 2%nat.

(** In edit mode the edited position exists in the Ledger. *)
Definition editing_index_valid {A} (s : session A) : Prop :=
  match editing_index s with
  | Some e => is_Some (py_index (variables s) e)
  | None => True
  end.

Definition yes_no_flag : gmap string value :=
  <["name" := VStr "is_active"]>
    (<["constraints" := VDict (<["allowed_values" := VList [VStr "Y"; VStr "N"]]> ∅)]> ∅).

Definition vocabulary_tables : list (gmap string string) := [at_map; dt_map; role_map].

(** The three vocabulary keys of a template, each with its table. *)
Definition vocabulary : list (string * gmap string string) :=
  [("analytical_type", at_map); ("data_type", dt_map); ("role", role_map)].

(** The capital letters among the characters 0 to 255: A to Z, and the
    accented capitals from U+00C0 to U+00D6 and from U+00D8 to U+00DE. *)
Definition upper_case (c : Ascii.ascii) : Prop :=
  let n := Ascii.N_of_ascii c in
  (65 ≤ n ≤ 90 ∨ 192 ≤ n ≤ 214 ∨ 216 ≤ n ≤ 222)%N.

(** [c] is [d], or the capital whose small letter is [d]. *)
Definition same_letter (c d : Ascii.ascii) : Prop :=
  c = d ∨ (upper_case c ∧ Ascii.N_of_ascii d = (Ascii.N_of_ascii c + 32)%N).

(** [x] is the word [w] up to letter case: letter by letter, [x] has the
    letter of [w] or its capital. *)
Fixpoint same_word (x w : string) : Prop :=
  match x, w with
  | EmptyString, EmptyString => True
  | String c x', String d w' => same_letter c d ∧ same_word x' w'
  | _, _ => False
  end.

Fixpoint no_upper_case (w : string) : Prop :=
  match w with
  | EmptyString => True
  | String c w' => ¬ upper_case c ∧ no_upper_case w'
  end.

(** [y] is the lower-cased form of [x]. *)
Definition lower_cased (x y : string) : Prop := same_word x y ∧ no_upper_case y.

(** White space among the characters 0 to 255. *)
Definition white_space (c : Ascii.ascii) : Prop :=
  Ascii.N_of_ascii c ∈ [9; 10; 11; 12; 13; 28; 29; 30; 31; 32; 133; 160]%N.

Fixpoint all_white (s : string) : Prop :=
  match s with
  | EmptyString => True
  | String c s' => white_space c ∧ all_white s'
  end.

(** [t] is [s] without the white space at its two ends: [s] is [t] between
    two runs of white space, and [t] neither begins nor ends with white
    space. *)
Definition stripped_form (s t : string) : Prop :=
  ∃ l r, s = l +:+ t +:+ r ∧ all_white l ∧ all_white r
    ∧ (∀ c t', t = String c t' → ¬ white_space c)
    ∧ (∀ t' c, t = t' +:+ String c EmptyString → ¬ white_space c).

(** Scenario E of the specification, before and after. *)
Definition legacy_template : gmap string value :=
  <["analytical_type" := VStr "categorical"]>
    (<["data_type" := VStr "boolean"]>
       (<["constraints" := VDict (<["is_nullable" := VBool true]> ∅)]> ∅)).

Definition sanitized_template : gmap string value :=
  <["analytical_type" := VStr "nominal"]>
    (<["data_type" := VStr "bool"]>
       (<["role" := VStr ""]>
          (<["constraints" := VDict (<["nullable" := VBool true]> ∅)]> ∅))).

(** What a section keeps: the keys the predicate shows. *)
Definition visible_part (new_at new_dt : value) (sec : gmap string value) : gmap string value :=
  filter (λ kv, is_field_visible kv.1 new_at new_dt = true) sec.

(** Every object of [h] is still in [h'], with the same content. *)
Definition extends (h h' : store) : Prop :=
  var_objs h ⊆ var_objs h' ∧ sec_objs h ⊆ sec_objs h'.

(** The variable at [lv] and its sections are not objects of [h0]. *)
Definition private (h0 h : store) (lv : loc) : Prop :=
  var_objs h0 !! lv = None
  ∧ ∀ var k l, var_objs h !! lv = Some var → var !! k = Some (ESec l) →
      sec_objs h0 !! l = None.

(** Two values that equal the same string literals. *)
Definition same_literals (v v' : value) : Prop := ∀ s, is_str v s = is_str v' s.

(** A variable of the data model: its references point to objects of the
    store and each metadata section it has is a dict. *)
Definition well_formed (h : store) (lv : loc) : Prop :=
  ∃ var, var_objs h !! lv = Some var
    ∧ (∀ k l, var !! k = Some (ESec l) → is_Some (sec_objs h !! l))
    ∧ (∀ s e, s ∈ metadata_sections → var !! s = Some e → ∃ l, e = ESec l).

(** The type the cascade works with: [v] is the scalar stored under [key],
    or the string [dflt] when the variable has no such key. *)
Definition effective_type (var : gmap string entry) (key dflt : string) (v : value) : Prop :=
  (var !! key = None ∧ v = VStr dflt) ∨ (∃ a, var !! key = Some (EAtom a) ∧ v = VAtom a).

(** One committed variable whose constraints hold bounds and two labels. *)
Definition scenario_D_store : store :=
  Store
    (<[0%nat := <["name" := EAtom (AStr "smoker")]>
                  (<["analytical_type" := EAtom (AStr "discrete")]>
                     (<["data_type" := EAtom (AStr "int64")]>
                        (<["constraints" := ESec 0%nat]> ∅)))]> ∅)
    (<[0%nat := <["min_value" := VInt 0]>
                  (<["max_value" := VInt 100]>
                     (<["allowed_values" := VList [VStr "Y"; VStr "N"]]> ∅))]> ∅).

Definition scenario_D_state : batch_state :=
  BatchState [0%nat] [0%Z] (Patch (<["analytical_type" := AStr "binary"]> ∅) ∅)
    scenario_D_store.

(** The store once Phase 3 has computed its preview. *)
Definition scenario_D_after : store :=
  Eval vm_compute in
    match review scenario_D_state with
    | Ok (_, h) => h
    | Raise _ => scenario_D_store
    end.

(** A variable committed without [analytical_type] and [data_type]. *)
Definition untyped_var : gmap string entry :=
  <["name" := EAtom (AStr "legacy_code")]> (<["constraints" := ESec 0%nat]> ∅).

Definition untyped_store : store :=
  Store (<[0%nat := untyped_var]> ∅)
        (<[0%nat := <["min_value" := VInt 1]>
                      (<["allowed_values" := VList [VStr "A"; VStr "B"]]> ∅)]> ∅).

(* ===================================================================== *)
(** ** src/logic/coherence.py, continued                                  *)
(* ===================================================================== *)

Definition get_field_requirement (field_name : string) (analytical_type data_type : value)
    : bool :=
  if bool_decide (field_name = "allowed_values") && is_str data_type "category" then true
  else if bool_decide (field_name = "ordinal_mapping") && is_str analytical_type "ordinal"
  then true
  else if str_in field_name ["unique"; "nullable"] && is_str analytical_type "nominal"
          && is_str data_type "string" then true
  else if str_in field_name ["data_steward"; "sensitivity"] then true
  else false.

(** Every field name that [is_field_visible] mentions. *)
Definition matrix_fields : list string :=
  ["plot_color"; "formatting"; "allowed_values"; "regex_pattern"; "ordinal_mapping";
   "text_normalization"; "encoding_strategy"; "min_value"; "max_value"; "unique";
   "outlier_strategy"; "outlier_threshold"; "standardization_strategy";
   "infinite_value_handling"].


(** *** Strings *)

(** [s.startswith(p)] is [String.prefix p s]; [s.endswith(p)]: *)
Definition ends_with (s suffix : string) : bool :=
  String.prefix (String.rev suffix) (String.rev s).

(** The characters [str.strip] removes, those [str.isspace] accepts: the
    ASCII controls 9 to 13 and 28 to 31, the space, and past ASCII the next
    line control U+0085 and the no-break space U+00A0. *)
Definition is_space (c : Ascii.ascii) : bool :=
  let n := Ascii.N_of_ascii c in
  (((9 <=? n) && (n <=? 13)) || ((28 <=? n) && (n <=? 32))
   || (n =? 133) || (n =? 160))%N.

(** [s.lstrip()] *)
Fixpoint lstrip (s : string) : string :=
  match s with
  | EmptyString => EmptyString
  | String c s' => if is_space c then lstrip s' else s
  end.

(** [s.rstrip()] *)
Fixpoint rstrip (s : string) : string :=
  match s with
  | EmptyString => EmptyString
  | String c s' =>
      match rstrip s' with
      | EmptyString => if is_space c then EmptyString else String c EmptyString
      | t => String c t
      end
  end.

(** [s.strip()] *)
Definition strip (s : string) : string := rstrip (lstrip s).

(** The two letter maps of [str.title], on ASCII letters. *)
Definition lower_ascii (c : Ascii.ascii) : Ascii.ascii :=
  let n := Ascii.N_of_ascii c in
  if ((65 <=? n) && (n <=? 90))%N then Ascii.ascii_of_N (n + 32) else c.

Definition upper_ascii (c : Ascii.ascii) : Ascii.ascii :=
  let n := Ascii.N_of_ascii c in
  if ((97 <=? n) && (n <=? 122))%N then Ascii.ascii_of_N (n - 32) else c.

Definition is_cased (c : Ascii.ascii) : bool :=
  let n := Ascii.N_of_ascii c in
  (((65 <=? n) && (n <=? 90)) || ((97 <=? n) && (n <=? 122)))%N.

(** [s.title()] on ASCII text: a letter that follows a letter is
    lower-cased, any other letter is upper-cased. *)
Fixpoint title_from (previous_is_cased : bool) (s : string) : string :=
  match s with
  | EmptyString => EmptyString
  | String c s' =>
      String (if previous_is_cased then lower_ascii c else upper_ascii c)
             (title_from (is_cased c) s')
  end.

Definition title (s : string) : string := title_from false s.

(** [s.replace(old, new)] for single characters. *)
Fixpoint replace_char (old new : Ascii.ascii) (s : string) : string :=
  match s with
  | EmptyString => EmptyString
  | String c s' =>
      String (if bool_decide (c = old) then new else c) (replace_char old new s')
  end.

Definition underscore : Ascii.ascii := Ascii.ascii_of_N 95.
Definition blank : Ascii.ascii := Ascii.ascii_of_N 32.

(** What a [for] loop over [v] visits: the elements of a list, the
    characters of a string, the keys of a dict, these in the order the
    model enumerates them. *)
Definition py_iter (v : value) : result (list value) :=
  match v with
  | VList xs => Ok xs
  | VStr s => Ok ((λ c, VStr (String c EmptyString)) <$> String.list_ascii_of_string s)
  | VDict d => Ok ((λ kv, VStr kv.1) <$> map_to_list d)
  | VAtom _ => Raise TypeError
  end.

(** *** The remaining functions of coherence.py *)

Definition get_dynamic_label (field_name : string) (analytical_type : value) : string :=
  let label := title (replace_char underscore blank field_name) in
  let numeric := val_in analytical_type ["continuous"; "discrete"; "spatial"] in
  let textual := val_in analytical_type ["text"; "nominal"; "ordinal"] in
  let temporal := is_str analytical_type "time_index" in
  if bool_decide (field_name = "min_value") && numeric then "Lower Numeric Bound"
  else if bool_decide (field_name = "min_value") && textual then "Minimum Character Length"
  else if bool_decide (field_name = "min_value") && temporal then "Start Date"
  else if bool_decide (field_name = "max_value") && numeric then "Upper Numeric Bound"
  else if bool_decide (field_name = "max_value") && textual then "Maximum Character Length"
  else if bool_decide (field_name = "max_value") && temporal then "End Date"
  else if bool_decide (field_name = "pii_flag") then "Contains PII?"
  else if bool_decide (field_name = "compliance_scope") then "Regulatory Compliance"
  else if bool_decide (field_name = "retention_period") then "Data Retention Period"
  else if bool_decide (field_name = "sla") then "Service Level Agreement (SLA)"
  else label.

(** [{v.strip() for v in items if v.strip()}] as a list that may repeat;
    [strip] exists on strings only. *)
Fixpoint stripped_labels (items : list value) : result (list string) :=
  match items with
  | [] => Ok []
  | VStr s :: items' =>
      rest ← stripped_labels items';
      Ok (if bool_decide (strip s = "") then rest else strip s :: rest)
  | _ :: _ => Raise AttributeError
  end.

Definition validate_categorical_entropy (allowed_values : value) : result (bool * string) :=
  if negb (truthy allowed_values)
  then Ok (false, "Category type requires an 'Allowed Values' list.")
  else
    items ← py_iter allowed_values;
    labels ← stripped_labels items;
    let found := length (remove_dups labels) in
    if bool_decide (found < 2)%nat
    then Ok (false,
             "Insufficient variance. Categories require at least 2 unique values (Found: "
             +:+ pretty found +:+ ").")
    else Ok (true, "").

(** The three-key dict literals of [guess_metadata_from_name]. *)
Definition type_guess (analytical_type data_type role : string) : gmap string value :=
  list_to_map [("analytical_type", VStr analytical_type); ("data_type", VStr data_type);
               ("role", VStr role)].

Section heuristics.
Variable str_of_object : value → string.

Definition guess_metadata_from_name (variable_name : value) : gmap string value :=
  let name_lower := lower (py_str str_of_object variable_name) in
  let defaults := type_guess "continuous" "float64" "feature" in
  if ends_with name_lower "_id" || bool_decide (name_lower = "id")
  then dict_update defaults (type_guess "discrete" "int64" "id")
  else if existsb (ends_with name_lower) ["_date"; "_at"; "_time"]
  then dict_update defaults (type_guess "time_index" "datetime64" "time_index")
  else if existsb (λ p, String.prefix p name_lower) ["is_"; "has_"; "flag_"]
  then dict_update defaults (type_guess "binary" "bool" "feature")
  else if existsb (λ x, contains x name_lower) ["name"; "email"; "desc"]
  then dict_update defaults (type_guess "text" "string" "metadata")
  else if existsb (λ x, contains x name_lower) ["_cat"; "_type"; "_status"]
  then dict_update defaults (type_guess "nominal" "category" "feature")
  else defaults.
End heuristics.


(* ===================================================================== *)
(** ** src/components/variable_form/handlers.py: categorical rows         *)
(* ===================================================================== *)

Module CatRows.

(** One row of the categorical editor, [{"label": ..., "rank": ...}]. *)
Record row : Type := Row { label : value; rank : value }.

(** The keys of [st.session_state] that [initialize_categorical_rows]
    reads and writes; [None] is a key that is absent. *)
Record form_state : Type := FormState {
  form_id : option Z;
  last_form_id : option Z;
  cat_rows_hydrated : option bool;
  cat_rows : option (list row);
}.

Definition empty_row : row := Row (VStr "") (VInt 0).

(** [mapping.get(val, 0)].  Dicts are keyed by strings, as JSON has them,
    so another scalar finds nothing; a list or a dict cannot be hashed. *)
Definition rank_of (mapping : gmap string value) (val : value) : result value :=
  match val with
  | VStr s => Ok (default (VInt 0) (mapping !! s))
  | VAtom _ => Ok (VInt 0)
  | _ => Raise TypeError
  end.

(** [for val in allowed: hydrated_rows.append({...})] *)
Fixpoint hydrate_rows (mapping : gmap string value) (allowed : list value)
    : result (list row) :=
  match allowed with
  | [] => Ok []
  | val :: allowed' =>
      r ← rank_of mapping val;
      rows ← hydrate_rows mapping allowed';
      Ok (Row val r :: rows)
  end.

Section initialize.
Variable literal_eval : string → option value.

(** [edit_data] defaults to [None] in the source; pass [VNone] for it.
    Nothing is written to the session before the last possible raise. *)
Definition initialize_categorical_rows (edit_data : value) (st : form_state)
    : result form_state :=
  let fid := default 0%Z (form_id st) in
  let stale := negb (bool_decide (last_form_id st = Some fid)) in
  let hydrated := default false (cat_rows_hydrated st) in
  let standard_reset :=
    if (match cat_rows st with None => true | Some _ => false end || stale)
       && negb hydrated
    then FormState (form_id st) (Some fid) (cat_rows_hydrated st) (Some [empty_row])
    else st in
  if truthy edit_data then
    data_type ← py_get edit_data "data_type" VNone;
    if is_str data_type "category" && (stale || negb hydrated) then
      constraints ← py_get edit_data "constraints" (VDict ∅);
      allowed ← py_get constraints "allowed_values" (VList []);
      mapping ← py_get constraints "ordinal_mapping" (VDict ∅);
      let allowed :=
        match allowed with
        | VStr s => default (VList []) (literal_eval s)
        | _ => allowed
        end in
      let mapping :=
        match mapping with
        | VStr s => default (VDict ∅) (literal_eval s)
        | _ => mapping
        end in
      let mapping := match mapping with VDict m => m | _ => ∅ end in
      hydrated_rows ← match allowed with
                      | VList xs => hydrate_rows mapping xs
                      | _ => Ok []
                      end;
      let hydrated_rows :=
        match hydrated_rows with [] => [empty_row] | _ => hydrated_rows end in
      Ok (FormState (form_id st) (Some fid) (Some true) (Some hydrated_rows))
    else Ok standard_reset
  else Ok standard_reset.
End initialize.

End CatRows.


(* ===================================================================== *)
(** ** src/components/template_modal.py: the Load Template button         *)
(* ===================================================================== *)

(** [sep.join(l)] *)
Definition join (sep : string) (l : list string) : string := String.concat sep l.

(** The three overwrite guards: an unticked box pops its key from the
    payload and is named in [skipped_fields]. *)
Definition overwrite_guards (ov_name ov_alias ov_desc : bool)
    (hydrate_payload : gmap string value) : gmap string value * list string :=
  let skipped_fields : list string := [] in
  let '(hydrate_payload, skipped_fields) :=
    if negb ov_name
    then (delete "name" hydrate_payload, (skipped_fields ++ ["Name"])%list)
    else (hydrate_payload, skipped_fields) in
  let '(hydrate_payload, skipped_fields) :=
    if negb ov_alias
    then (delete "alias" hydrate_payload, (skipped_fields ++ ["Alias"])%list)
    else (hydrate_payload, skipped_fields) in
  if negb ov_desc
  then (delete "description" hydrate_payload, (skipped_fields ++ ["Description"])%list)
  else (hydrate_payload, skipped_fields).

Section load_template.
Variable str_of_object : value → string.

(** The body of the button: the session with its two flags reset, and
    either the raise of the sanitizer or what is handed to the form,
    [(hydration_report, loaded_template)].  The payload is a deep copy of
    the template, which is therefore never written to. *)
Definition load_template {A} (ov_name ov_alias ov_desc : bool)
    (t_data : gmap string value) (s : session A)
    : session A * result (string * gmap string value) :=
  let s := Session (variables s) None false in
  let '(hydrate_payload, skipped_fields) :=
    overwrite_guards ov_name ov_alias ov_desc t_data in
  (s,
   hydrate_payload ← sanitize str_of_object hydrate_payload;
   Ok (match skipped_fields with
       | [] => "Complete template applied."
       | _ => "Metadata applied (" +:+ join ", " skipped_fields +:+ " preserved)."
       end,
       hydrate_payload)).
End load_template.


(* ===================================================================== *)
(** ** src/components/variable_form/widgets.py and src/sections/core.py:
       the two type-driven selectors                                      *)
(* ===================================================================== *)

(** [opts.index(x) if x in opts else 0]: the [index] handed to
    [st.selectbox], that is, the option shown as selected. *)
Definition option_index (opts : list string) (x : value) : nat :=
  match list_find (λ o, is_str x o = true) opts with
  | Some (i, _) => i
  | None => 0%nat
  end.

(** [render_input_field] for a field of dtype [enum] whose name has no
    fallback of its own in [_handle_enum_multiselect] (not
    [compliance_scope], [missing_strategy], [preferred_plot]): [None] when
    the field is hidden, else the options and the preselected index.  The
    call sites below leave [data_type] at its default [None]. *)
Definition render_enum_field (name : string) (options : list string)
    (analytical_type edit_value : value) : result (option (list string * nat)) :=
  if negb (is_field_visible name analytical_type VNone) then Ok None
  else if bool_decide (name = "data_type") then
    opts ← get_filtered_data_types analytical_type;
    Ok (Some (opts, option_index opts edit_value))
  else Ok (Some (options, option_index options edit_value)).

(** core.py, step 2: the data type selector. *)
Definition data_type_selector (current_at edit_data : value)
    : result (option (list string * nat)) :=
  edit_value ← (if truthy edit_data then py_get edit_data "data_type" VNone else Ok VNone);
  render_enum_field "data_type" [] current_at edit_value.

(** core.py, step 3: the role selector with its fallback. *)
Definition role_selector (current_at current_dt edit_data : value)
    : result (option (list string * nat)) :=
  let valid_roles := get_filtered_roles current_at current_dt in
  edit_role ← (if truthy edit_data then py_get edit_data "role" VNone else Ok VNone);
  let edit_role := if negb (val_in edit_role valid_roles) then VStr "feature" else edit_role in
  render_enum_field "role" valid_roles current_at edit_role.


(* ===================================================================== *)
(** * Properties                                                          *)
(* ===================================================================== *)

Lemma is_str_true_iff (v : value) (s : string) : is_str v s = true ↔ v = VStr s.
Proof.
  destruct v as [[| | |t]| |]; simpl; try (split; [discriminate|by inversion 1]).
  rewrite bool_decide_eq_true. split; [by intros ->|by inversion 1].
Qed.

Lemma is_str_self (s : string) : is_str (VStr s) s = true.
Proof. by apply is_str_true_iff. Qed.

Lemma is_str_other (v : value) (s : string) : v ≠ VStr s → is_str v s = false.
Proof.
  intros Hne. destruct (is_str v s) eqn:E; [|done].
  by apply is_str_true_iff in E.
Qed.

(** ** The type taxonomy *)

Lemma data_type_mapping_dom (s : string) :
  s ∉ known_analytical_types → data_type_mapping !! s = None.
Proof.
  intros Hs. unfold data_type_mapping.
  apply not_elem_of_list_to_map_1. simpl. exact Hs.
Qed.

(** C8.  [get_filtered_data_types] returns, without raising, a non-empty
    list for every input string: the documented list for each of the eight
    analytical types, and [["object"]] for every other string. *)
Theorem get_filtered_data_types_total (s : string) :
  (∃ l, get_filtered_data_types (VStr s) = Ok l ∧ l ≠ [])
  ∧ get_filtered_data_types (VStr "continuous") = Ok ["float64"]
  ∧ get_filtered_data_types (VStr "discrete") = Ok ["int64"]
  ∧ get_filtered_data_types (VStr "nominal") = Ok ["category"; "string"; "bool"]
  ∧ get_filtered_data_types (VStr "ordinal") = Ok ["category"]
  ∧ get_filtered_data_types (VStr "binary") = Ok ["bool"; "int64"]
  ∧ get_filtered_data_types (VStr "text") = Ok ["string"]
  ∧ get_filtered_data_types (VStr "time_index") = Ok ["datetime64"]
  ∧ get_filtered_data_types (VStr "spatial") = Ok ["float64"; "string"]
  ∧ get_filtered_data_types (VStr "unknown_garbage") = Ok ["object"]
  ∧ (s ∉ known_analytical_types → get_filtered_data_types (VStr s) = Ok ["object"]).
Proof.
  split; [|repeat split; try reflexivity].
  - destruct (decide (s ∈ known_analytical_types)) as [Hin|Hout].
    + unfold known_analytical_types in Hin.
      repeat (apply elem_of_cons in Hin as [->|Hin]; [eexists; split; [reflexivity|done]|]).
      by apply elem_of_nil in Hin.
    + exists ["object"]. simpl. by rewrite (data_type_mapping_dom s Hout).
  - intros Hout. simpl. by rewrite (data_type_mapping_dom s Hout).
Qed.

(** C9.  The first rule of the role chain wins: a [time_index] analytical
    type or a [datetime64] data type forces the roles to exactly
    [["time_index"]], whatever the other argument is. *)
Theorem get_filtered_roles_time_index (analytical_type data_type : value) :
  analytical_type = VStr "time_index" ∨ data_type = VStr "datetime64" →
  get_filtered_roles analytical_type data_type = ["time_index"].
Proof.
  intros H. unfold get_filtered_roles.
  assert (is_str analytical_type "time_index" || is_str data_type "datetime64" = true) as ->;
    [|reflexivity].
  apply orb_true_iff.
  destruct H as [->| ->]; [left|right]; apply is_str_self.
Qed.

Lemma get_filtered_roles_time_index_witness :
  get_filtered_roles (VStr "nominal") (VStr "datetime64") = ["time_index"]
  ∧ get_filtered_roles (VStr "time_index") VNone = ["time_index"].
Proof.
  split.
  - apply (get_filtered_roles_time_index (VStr "nominal") (VStr "datetime64")).
    right. reflexivity.
  - apply (get_filtered_roles_time_index (VStr "time_index") VNone).
    left. reflexivity.
Defined.

(** ** The visibility predicate *)

(** For an analytical type other than [ordinal] the chain reaches, at the
    latest, the [elif field_name == "ordinal_mapping"] link. *)
Lemma ordinal_mapping_hidden (analytical_type data_type : value) :
  analytical_type ≠ VStr "ordinal" →
  is_field_visible "ordinal_mapping" analytical_type data_type = false.
Proof.
  intros Hne. unfold is_field_visible, val_in. simpl existsb.
  rewrite (is_str_other _ _ Hne).
  destruct (is_str analytical_type "continuous"), (is_str analytical_type "discrete"),
    (is_str analytical_type "binary"), (is_str analytical_type "nominal"),
    (is_str analytical_type "text"), (is_str analytical_type "time_index");
    reflexivity.
Qed.

(** For [ordinal] only the per-data-type block can still hide the field. *)
Lemma ordinal_mapping_ordinal (data_type : value) :
  is_field_visible "ordinal_mapping" (VStr "ordinal") data_type
  = negb (is_str data_type "string" || is_str data_type "bool").
Proof.
  unfold is_field_visible, val_in, data_type_suppresses. simpl existsb.
  change (str_in "ordinal_mapping" ["plot_color"; "formatting"]) with false.
  cbn [is_str atom_is].
  destruct data_type as [[| b | n | s] | xs | d];
    cbn [is_str atom_is truthy atom_truthy]; rewrite ?andb_false_r; try reflexivity.
  destruct (decide (s = "string")) as [->|Hs]; [reflexivity|].
  destruct (decide (s = "bool")) as [->|Hb]; [reflexivity|].
  rewrite !(bool_decide_eq_false_2 (s = "string")), !(bool_decide_eq_false_2 (s = "bool"))
    by done.
  cbn [andb orb]. by rewrite !andb_false_r.
Qed.

(** C2, counterexample.  The claimed equivalence fails: for an [ordinal]
    variable stored as [string] the per-data-type block hides
    [ordinal_mapping]. *)
Lemma ordinal_mapping_not_only_ordinal :
  ¬ (∀ analytical_type data_type : value,
       is_field_visible "ordinal_mapping" analytical_type data_type = true
       ↔ analytical_type = VStr "ordinal").
Proof.
  intros H.
  destruct (H (VStr "ordinal") (VStr "string")) as [_ Hvis].
  specialize (Hvis eq_refl). vm_compute in Hvis. discriminate.
Qed.

(** C2, as amended.  [ordinal_mapping] is visible exactly when the
    analytical type is [ordinal] and the data type is neither [string] nor
    [bool]; for every other analytical type it is hidden whatever the data
    type is. *)
Theorem ordinal_mapping_visible_iff (analytical_type data_type : value) :
  is_field_visible "ordinal_mapping" analytical_type data_type = true
  ↔ analytical_type = VStr "ordinal"
    ∧ data_type ≠ VStr "string" ∧ data_type ≠ VStr "bool".
Proof.
  destruct (is_str analytical_type "ordinal") eqn:E.
  - apply is_str_true_iff in E as ->.
    rewrite ordinal_mapping_ordinal, negb_true_iff, orb_false_iff.
    split.
    + intros [Hs Hb]. split; [done|].
      split; intros ->; by rewrite is_str_self in *.
    + intros (_ & Hs & Hb). by rewrite !is_str_other.
  - assert (analytical_type ≠ VStr "ordinal") as Hne.
    { intros ->. by rewrite is_str_self in E. }
    rewrite ordinal_mapping_hidden by done. split; [discriminate|].
    by intros [? _].
Qed.

(** ** The Ledger: deletion *)

Lemma py_index_in_range {A} (l : list A) (i : Z) :
  (0 ≤ i < Z.of_nat (length l))%Z → py_index l i = Some (Z.to_nat i).
Proof. intros H. unfold py_index. by rewrite bool_decide_eq_true_2. Qed.

(** C4, counterexample.  Deleting at an index past the end of the Ledger
    raises nothing: the call returns and the session is as it was. *)
Lemma delete_variable_out_of_bounds_no_error :
  let s := Session ["age"; "income"] (Some 1%Z) true in
  delete_variable 5 s ≠ Raise IndexError ∧ delete_variable 5 s = Ok s.
Proof. split; [discriminate|reflexivity]. Qed.

(** C4, as amended.  An out-of-bounds index (negative ones included) is
    ignored: no error, the session is unchanged.  For an in-bounds index the
    entry is removed: the entries before it stay where they are and each
    later entry moves down by one position. *)
Theorem delete_variable_spec {A} (index : Z) (s : session A) :
  (¬ (0 ≤ index < Z.of_nat (length (variables s)))%Z → delete_variable index s = Ok s)
  ∧ ((0 ≤ index < Z.of_nat (length (variables s)))%Z →
     ∃ s', delete_variable index s = Ok s'
       ∧ S (length (variables s')) = length (variables s)
       ∧ (∀ j, (j < Z.to_nat index)%nat → variables s' !! j = variables s !! j)
       ∧ (∀ j, (Z.to_nat index ≤ j)%nat → variables s' !! j = variables s !! S j)).
Proof.
  unfold delete_variable. split; intros Hidx.
  - by rewrite bool_decide_eq_false_2.
  - rewrite bool_decide_eq_true_2 by done.
    unfold py_pop. rewrite py_index_in_range by done. cbn.
    set (vars := delete (Z.to_nat index) (variables s)).
    assert (S (length vars) = length (variables s)
            ∧ (∀ j, (j < Z.to_nat index)%nat → vars !! j = variables s !! j)
            ∧ (∀ j, (Z.to_nat index ≤ j)%nat → vars !! j = variables s !! S j)) as Hvars.
    { subst vars. split; [|split].
      - rewrite length_delete; [lia|]. apply lookup_lt_is_Some. lia.
      - intros j Hj. by apply list_lookup_delete_lt.
      - intros j Hj. by apply list_lookup_delete_ge. }
    destruct (editing_index s) as [e|]; [|by eexists].
    repeat case_bool_decide; by eexists.
Qed.

Lemma delete_variable_spec_witness :
  ∃ s', delete_variable 1 (Session ["a"; "b"; "c"] (Some 2%Z) true) = Ok s'
    ∧ variables s' !! 1%nat = Some "c".
Proof.
  destruct (delete_variable_spec 1 (Session ["a"; "b"; "c"] (Some 2%Z) true)) as [_ H].
  destruct H as (s' & Hs' & _ & _ & Hshift); [simpl; lia|].
  exists s'. split; [exact Hs'|].
  rewrite (Hshift 1%nat); [reflexivity | simpl; lia].
Defined.

(** ** Commit validation: the binary lock *)

Lemma ordinal_rank_check_locked literal_eval (c : gmap string value) (current_at current_dt : value) :
  current_at = VStr "binary" ∨ current_dt = VStr "bool" →
  ordinal_rank_check literal_eval (VDict c) current_at current_dt = Ok true.
Proof.
  intros Hlock. unfold ordinal_rank_check.
  destruct (is_str current_dt "category") eqn:Hcat; [|done].
  apply is_str_true_iff in Hcat as ->.
  destruct Hlock as [->|?]; [|done].
  cbn. by repeat case_match.
Qed.

Lemma commit_valid (v_inputs : gmap string value) (s : session (gmap string value)) :
  editing_index_valid s →
  ∃ s', commit v_inputs s = Ok s' ∧ v_inputs ∈ variables s'.
Proof.
  unfold editing_index_valid, commit, py_setitem.
  destruct (editing_index s) as [e|].
  - intros [n Hn]. rewrite Hn. cbn. eexists; split; [done|]. cbn.
    apply list_elem_of_lookup. exists n. apply list_lookup_insert_eq.
    unfold py_index in Hn. repeat case_bool_decide; simplify_eq; lia.
  - intros _. eexists; split; [done|]. cbn. set_solver.
Qed.

Lemma is_locked_binary_true (current_at current_dt : value) :
  current_at = VStr "binary" ∨ current_dt = VStr "bool" →
  is_str current_at "binary" || is_str current_dt "bool" = true.
Proof.
  intros [-> | ->]; apply orb_true_iff; [left|right]; apply is_str_self.
Qed.

(** C5.  For a candidate with a non-empty name whose analytical type is
    [binary] or whose data type is [bool], the submission is accepted
    (returns [True]) exactly when [constraints.allowed_values] has two
    entries; an accepted candidate is in the Ledger afterwards, and whenever
    the submission is not accepted the session, Ledger included, is left
    exactly as it was. *)
Theorem binary_lock (literal_eval : string → option value)
    (v_inputs : gmap string value) (current_at current_dt : value)
    (s : session (gmap string value)) :
  current_at = VStr "binary" ∨ current_dt = VStr "bool" →
  truthy (default VNone (v_inputs !! "name")) = true →
  editing_index_valid s →
  let r := process_form_submission literal_eval v_inputs current_at current_dt s in
  (r.1 = Ok true ↔ has_two_labels v_inputs)
  ∧ (r.1 = Ok true → commit v_inputs s = Ok r.2 ∧ v_inputs ∈ variables r.2)
  ∧ (r.1 ≠ Ok true → r.2 = s).
Proof.
  intros Hlock Hname Hvalid.
  destruct (commit_valid v_inputs s Hvalid) as (s' & Hcommit & Hin).
  unfold process_form_submission, logic_validation, has_two_labels.
  rewrite Hname, (is_locked_binary_true _ _ Hlock). cbn [negb].
  destruct (v_inputs !! "constraints") as [[a|xs|c]|] eqn:Hc; cbn.
  - (* constraints is a scalar: [.get] raises *)
    split; [|done]. split; [done|]. by intros (? & ? & ? & _).
  - split; [|done]. split; [done|]. by intros (? & ? & ? & _).
  - destruct (c !! "allowed_values") as [labels|] eqn:Hl; cbn.
    + destruct (py_len labels) as [n|e] eqn:Hn; cbn.
      * case_bool_decide as Hn2; cbn.
        -- split; [|done]. split; [done|].
           intros (c' & l' & ? & ? & Hlen). simplify_eq. congruence.
        -- rewrite (ordinal_rank_check_locked _ _ _ _ Hlock), Hcommit. cbn.
           assert (n = 2%nat) as -> by (by destruct (decide (n = 2%nat))).
           split; [|split; [done|by intros []]].
           split; [|done]. intros _. by exists c, labels.
      * split; [|done]. split; [done|].
        intros (c' & l' & ? & ? & ?). simplify_eq. congruence.
    + split; [|done]. split; [done|].
      intros (c' & l' & ? & ? & ?). simplify_eq.
  - split; [|done]. split; [done|]. by intros (? & ? & ? & _).
Qed.

Lemma binary_lock_witness :
  (process_form_submission (λ _, None) yes_no_flag (VStr "binary") (VStr "bool")
     (Session [] None false)).1 = Ok true.
Proof.
  apply (binary_lock (λ _, None) yes_no_flag (VStr "binary") (VStr "bool")
           (Session [] None false)).
  - left. reflexivity.
  - reflexivity.
  - exact I.
  - exists (<["allowed_values" := VList [VStr "Y"; VStr "N"]]> ∅),
      (VList [VStr "Y"; VStr "N"]).
    repeat split; reflexivity.
Defined.

(** ** Template vocabulary sanitization *)

Lemma lower_nonempty (s : string) : s ≠ "" → lower s ≠ "".
Proof. by destruct s. Qed.

Lemma vocabulary_tables_entries (table : gmap string string) (legacy canonical : string) :
  table ∈ vocabulary_tables → table !! legacy = Some canonical →
  lower legacy = legacy ∧ canonical ≠ "".
Proof.
  intros Ht Hl. unfold vocabulary_tables in Ht.
  repeat (apply elem_of_cons in Ht as [->|Ht]);
    try (by apply elem_of_nil in Ht);
    apply elem_of_list_to_map_2 in Hl;
    repeat (apply elem_of_cons in Hl as [[= -> ->]|Hl]; [by split|]);
    by apply elem_of_nil in Hl.
Qed.

(** *** Letter case *)

Lemma is_upper_true (c : Ascii.ascii) : is_upper c = true ↔ upper_case c.
Proof.
  unfold is_upper, upper_case. cbn zeta.
  rewrite !orb_true_iff, !andb_true_iff, !N.leb_le. tauto.
Qed.

Lemma lower_char_upper (c : Ascii.ascii) :
  upper_case c → Ascii.N_of_ascii (lower_char c) = (Ascii.N_of_ascii c + 32)%N.
Proof.
  intros Hc. unfold lower_char. rewrite (proj2 (is_upper_true c) Hc).
  apply Ascii.N_ascii_embedding. unfold upper_case in Hc. cbn zeta in Hc. lia.
Qed.

Lemma lower_char_other (c : Ascii.ascii) : ¬ upper_case c → lower_char c = c.
Proof.
  intros Hc. unfold lower_char.
  destruct (is_upper c) eqn:E; [|done]. by apply is_upper_true in E.
Qed.

Lemma lower_char_not_upper (c : Ascii.ascii) : ¬ upper_case (lower_char c).
Proof.
  destruct (is_upper c) eqn:E.
  - apply is_upper_true in E. pose proof (lower_char_upper c E) as Hn.
    unfold upper_case in *. cbn zeta in *. lia.
  - unfold lower_char. rewrite E. intros Hc. apply is_upper_true in Hc. congruence.
Qed.

Lemma same_letter_lower_char (c d : Ascii.ascii) :
  same_letter c d → lower_char c = lower_char d.
Proof.
  intros [->|[Hc Hd]]; [done|].
  assert (lower_char c = d) as ->.
  { rewrite <- (Ascii.ascii_N_embedding (lower_char c)), <- (Ascii.ascii_N_embedding d).
    f_equal. rewrite Hd. by apply lower_char_upper. }
  symmetry. apply lower_char_other.
  unfold upper_case in *. cbn zeta in *. lia.
Qed.

Lemma same_letter_lower_char_self (c : Ascii.ascii) : same_letter c (lower_char c).
Proof.
  destruct (is_upper c) eqn:E.
  - right. apply is_upper_true in E. split; [done|]. by apply lower_char_upper.
  - left. unfold lower_char. by rewrite E.
Qed.

Lemma same_word_lower (x w : string) : same_word x w → lower x = lower w.
Proof.
  revert w. induction x as [|c x IH]; intros [|d w]; cbn; try done.
  intros [Hc Hx]. by rewrite (same_letter_lower_char c d Hc), (IH w Hx).
Qed.

Lemma lower_cased_lower (x : string) : lower_cased x (lower x).
Proof.
  unfold lower_cased. induction x as [|c x [IH1 IH2]]; [done|]. cbn. split.
  - split; [apply same_letter_lower_char_self|done].
  - split; [apply lower_char_not_upper|done].
Qed.

(** *** The sanitizer *)

Lemma standardize_constraint_keys_total (p : gmap string value) :
  (∀ v, p !! "constraints" = Some v → ∃ c, v = VDict c) →
  ∃ p', standardize_constraint_keys p = Ok p'.
Proof.
  intros Hc. unfold standardize_constraint_keys.
  destruct (p !! "constraints") as [v|]; [|by eexists].
  destruct (Hc v eq_refl) as [c ->].
  destruct (c !! "is_nullable"); by eexists.
Qed.

Section sanitizer_properties.
Variable str_of_object : value → string.

Lemma sanitize_term_string (table : gmap string string) (key x : string)
    (payload : gmap string value) :
  payload !! key = Some (VStr x) →
  sanitize_term str_of_object table key payload = default (lower x) (table !! lower x).
Proof. intros H. unfold sanitize_term. by rewrite H. Qed.

Lemma standardize_constraint_keys_rename (payload c : gmap string value) (x : value) :
  payload !! "constraints" = Some (VDict c) →
  c !! "is_nullable" = Some x →
  standardize_constraint_keys payload
  = Ok (<["constraints" := VDict (<["nullable" := x]> (delete "is_nullable" c))]> payload).
Proof. intros Hc Hn. unfold standardize_constraint_keys. by rewrite Hc, Hn. Qed.

Lemma standardize_constraint_keys_inv (p p' : gmap string value) :
  standardize_constraint_keys p = Ok p' →
  (p' = p ∧ standardize_constraint_keys p' = Ok p')
  ∨ (∃ c x, p !! "constraints" = Some (VDict c) ∧ c !! "is_nullable" = Some x
       ∧ p' = <["constraints" := VDict (<["nullable" := x]> (delete "is_nullable" c))]> p).
Proof.
  unfold standardize_constraint_keys.
  destruct (p !! "constraints") as [[a|xs|c]|] eqn:Hc.
  - intros H. left. assert (p' = p) as ->.
    { destruct a; try discriminate. by destruct (contains _ _); simplify_eq. }
    split; [done|]. by rewrite Hc.
  - intros H. left. assert (p' = p) as ->.
    { by destruct (existsb _ _); simplify_eq. }
    split; [done|]. by rewrite Hc.
  - destruct (c !! "is_nullable") as [x|] eqn:Hn.
    + intros [= <-]. right. by exists c, x.
    + intros [= <-]. left. split; [done|]. by rewrite Hc, Hn.
  - intros [= <-]. left. split; [done|]. by rewrite Hc.
Qed.

Lemma sanitize_lookup_other (p p' : gmap string value) (k : string) :
  sanitize str_of_object p = Ok p' →
  k ∉ ["analytical_type"; "data_type"; "role"; "constraints"] →
  p' !! k = p !! k.
Proof.
  unfold sanitize. intros H Hk.
  assert (k ≠ "analytical_type" ∧ k ≠ "data_type" ∧ k ≠ "role" ∧ k ≠ "constraints")
    as (H1 & H2 & H3 & H4) by set_solver.
  apply standardize_constraint_keys_inv in H as [[-> _]|(c & x & _ & _ & ->)].
  - by rewrite !lookup_insert_ne.
  - by rewrite !lookup_insert_ne.
Qed.

Lemma sanitize_lookup_vocabulary (p p' : gmap string value) :
  sanitize str_of_object p = Ok p' →
  p' !! "analytical_type"
    = Some (VStr (sanitize_term str_of_object at_map "analytical_type" p))
  ∧ p' !! "data_type" = Some (VStr (sanitize_term str_of_object dt_map "data_type" p))
  ∧ p' !! "role" = Some (VStr (sanitize_term str_of_object role_map "role" p)).
Proof.
  unfold sanitize. intros H.
  assert (∀ table key (q : gmap string value) k v, k ≠ key →
            sanitize_term str_of_object table key (<[k := v]> q)
            = sanitize_term str_of_object table key q) as Hterm.
  { intros table key q k v Hne. unfold sanitize_term. by rewrite lookup_insert_ne. }
  rewrite !Hterm in H by done.
  apply standardize_constraint_keys_inv in H as [[-> _]|(c & x & _ & _ & ->)].
  - split; [|split].
    + by rewrite 2!lookup_insert_ne, lookup_insert_eq by done.
    + by rewrite lookup_insert_ne, lookup_insert_eq by done.
    + by rewrite lookup_insert_eq.
  - split; [|split].
    + by rewrite 3!lookup_insert_ne, lookup_insert_eq by done.
    + by rewrite 2!lookup_insert_ne, lookup_insert_eq by done.
    + by rewrite lookup_insert_ne, lookup_insert_eq by done.
Qed.

Lemma sanitize_total (payload : gmap string value) :
  (∀ v, payload !! "constraints" = Some v → ∃ c, v = VDict c) →
  ∃ p, sanitize str_of_object payload = Ok p.
Proof.
  intros Hc. unfold sanitize. apply standardize_constraint_keys_total.
  intros v. cbn zeta. rewrite 3!lookup_insert_ne by done. apply Hc.
Qed.

(** C6.  Sanitization of a template is total and follows the documented
    tables.  On a template whose [constraints], if it has any, is a dict,
    the sanitizer returns; and in what it returns each vocabulary key that
    held a string [x] holds a string [y] such that: if [x] is, up to
    letter case, a legacy word of the key's table, [y] is the table's
    canonical word for it; if [x] is, up to letter case, no word of the
    table, [y] is the lower-cased form of [x]; and [y] is empty only if
    [x] was.  The legacy words of the tables are themselves in lower case.
    In particular [categorical] becomes [nominal] and [boolean], as a data
    type, becomes [bool], and the template of Scenario E becomes the
    documented one.  The legacy key [constraints.is_nullable] is moved to
    [constraints.nullable]: the value is kept, the old key is gone and the
    other constraint keys are untouched. *)
Theorem sanitize_vocabulary (payload : gmap string value) :
  (∀ v, payload !! "constraints" = Some v → ∃ c, v = VDict c) →
  ∃ p, sanitize str_of_object payload = Ok p
    ∧ (∀ key table x, (key, table) ∈ vocabulary → payload !! key = Some (VStr x) →
         ∃ y, p !! key = Some (VStr y)
           ∧ (∀ legacy canonical, table !! legacy = Some canonical →
                same_word x legacy → y = canonical)
           ∧ ((∀ legacy, same_word x legacy → table !! legacy = None) → lower_cased x y)
           ∧ (x ≠ "" → y ≠ ""))
    ∧ (∀ key table legacy canonical, (key, table) ∈ vocabulary →
         table !! legacy = Some canonical → no_upper_case legacy)
    ∧ (∀ (c : gmap string value) (b : value),
         payload !! "constraints" = Some (VDict c) →
         c !! "is_nullable" = Some b →
         ∃ c', p !! "constraints" = Some (VDict c')
           ∧ c' !! "nullable" = Some b
           ∧ c' !! "is_nullable" = None
           ∧ ∀ k, k ≠ "nullable" → k ≠ "is_nullable" → c' !! k = c !! k)
    ∧ at_map !! "categorical" = Some "nominal"
    ∧ dt_map !! "boolean" = Some "bool"
    ∧ sanitize str_of_object legacy_template = Ok sanitized_template.
Proof.
  intros Hdict. destruct (sanitize_total payload Hdict) as [p Hp].
  exists p. split; [done|].
  destruct (sanitize_lookup_vocabulary _ _ Hp) as (Hat & Hdt & Hrole).
  assert (∀ key table, (key, table) ∈ vocabulary →
            table ∈ vocabulary_tables
            ∧ p !! key = Some (VStr (sanitize_term str_of_object table key payload)))
    as Hkeys.
  { intros key table Hk. unfold vocabulary, vocabulary_tables in *.
    repeat (apply elem_of_cons in Hk as [[= -> ->]|Hk]; [split; [set_solver|done]|]).
    by apply elem_of_nil in Hk. }
  split; [|split; [|split; [|split; [|split]]]].
  - intros key table x Hk Hx. destruct (Hkeys key table Hk) as [Ht Hy].
    rewrite (sanitize_term_string _ _ x) in Hy by done.
    eexists. split; [exact Hy|]. split; [|split].
    + intros legacy canonical Hl Hsame.
      destruct (vocabulary_tables_entries _ _ _ Ht Hl) as [Hlow _].
      apply same_word_lower in Hsame. rewrite Hlow in Hsame. by rewrite Hsame, Hl.
    + intros Hnone. rewrite (Hnone (lower x)) by apply lower_cased_lower.
      apply lower_cased_lower.
    + intros Hne. destruct (table !! lower x) as [c|] eqn:Hc; cbn [default from_option id].
      * by destruct (vocabulary_tables_entries _ _ _ Ht Hc).
      * by apply lower_nonempty.
  - intros key table legacy canonical Hk Hl. destruct (Hkeys key table Hk) as [Ht _].
    destruct (vocabulary_tables_entries _ _ _ Ht Hl) as [Hlow _].
    rewrite <- Hlow. apply lower_cased_lower.
  - intros c b Hc Hb. unfold sanitize in Hp.
    erewrite standardize_constraint_keys_rename in Hp; [|by rewrite !lookup_insert_ne|done].
    injection Hp as <-.
    eexists. split; [by rewrite lookup_insert_eq|].
    split; [by rewrite lookup_insert_eq|].
    split; [by rewrite lookup_insert_ne, lookup_delete_eq|].
    intros k Hk1 Hk2. by rewrite lookup_insert_ne, lookup_delete_ne.
  - vm_cast_no_check (eq_refl (Some "nominal")).
  - vm_cast_no_check (eq_refl (Some "bool")).
  - vm_cast_no_check (eq_refl (Ok sanitized_template)).
Qed.
End sanitizer_properties.

Lemma sanitize_vocabulary_witness :
  ∃ p, sanitize (λ _, "")
         (<["analytical_type" := VStr "CATEGORICAL"]>
            (<["data_type" := VStr "Decimal"]> ∅)) = Ok p
    ∧ p !! "analytical_type" = Some (VStr "nominal")
    ∧ ∃ y, p !! "data_type" = Some (VStr y) ∧ lower_cased "Decimal" y.
Proof.
  destruct (sanitize_vocabulary (λ _, "")
              (<["analytical_type" := VStr "CATEGORICAL"]>
                 (<["data_type" := VStr "Decimal"]> ∅)))
    as (p & Hp & Hterms & _).
  - intros v Hv. vm_compute in Hv. discriminate Hv.
  - exists p. split; [exact Hp|]. split.
    + destruct (Hterms "analytical_type" at_map "CATEGORICAL") as (y & Hy & Hcanon & _).
      * unfold vocabulary. apply elem_of_cons. left. reflexivity.
      * reflexivity.
      * rewrite Hy. f_equal. f_equal. f_equal.
        apply (Hcanon "categorical" "nominal").
        -- vm_cast_no_check (eq_refl (Some "nominal")).
        -- cbn. unfold same_letter, upper_case. cbn. repeat split; right; lia.
    + destruct (Hterms "data_type" dt_map "Decimal") as (y & Hy & _ & Hpass & _).
      * unfold vocabulary. apply elem_of_cons. right. apply elem_of_cons. left. reflexivity.
      * reflexivity.
      * exists y. split; [exact Hy|]. apply Hpass.
        intros legacy Hsame. apply same_word_lower in Hsame.
        destruct (dt_map !! legacy) as [canonical|] eqn:Hl; [exfalso|reflexivity].
        unfold dt_map in Hl. apply elem_of_list_to_map_2 in Hl.
        repeat (apply elem_of_cons in Hl as [[= -> _]|Hl]; [discriminate Hsame|]).
        by apply elem_of_nil in Hl.
Defined.

(** ** Dictionaries *)

Lemma dict_update_union {V} (dst src : gmap string V) : dict_update dst src = src ∪ dst.
Proof.
  unfold dict_update.
  apply (map_fold_weak_ind (λ acc m, acc = m ∪ dst)).
  - by rewrite (left_id_L ∅ (∪)).
  - intros k v m acc _ ->. by rewrite insert_union_l.
Qed.

Lemma del_keys_lookup (ks : list string) (sec : gmap string value) (k : string) :
  del_keys sec ks !! k = if decide (k ∈ ks) then None else sec !! k.
Proof.
  unfold del_keys. revert sec. induction ks as [|k' ks IH]; intros sec.
  - cbn [foldl]. case_decide; [set_solver|done].
  - cbn [foldl]. rewrite IH.
    destruct (decide (k = k')) as [->|Hne].
    + rewrite lookup_delete_eq. do 2 case_decide; set_solver.
    + rewrite lookup_delete_ne by done. do 2 case_decide; set_solver.
Qed.

Lemma elem_of_keys_to_remove (new_at new_dt : value) (sec : gmap string value) (k : string) :
  k ∈ keys_to_remove new_at new_dt sec
  ↔ is_Some (sec !! k) ∧ is_field_visible k new_at new_dt = false.
Proof.
  unfold keys_to_remove. rewrite list_elem_of_filter, list_elem_of_fmap.
  split.
  - intros [Hvis ([k' v] & -> & Hin)]. apply elem_of_map_to_list in Hin. by eauto.
  - intros [[v Hv] Hvis]. split; [done|].
    exists (k, v). split; [done|]. by apply elem_of_map_to_list.
Qed.

(** The two loops of the source, collect then delete, amount to a filter. *)
Lemma del_keys_to_remove (new_at new_dt : value) (sec : gmap string value) :
  del_keys sec (keys_to_remove new_at new_dt sec) = visible_part new_at new_dt sec.
Proof.
  apply map_eq. intros k. unfold visible_part.
  rewrite del_keys_lookup, map_lookup_filter.
  destruct (sec !! k) as [v|] eqn:Hk; simpl.
  - destruct (is_field_visible k new_at new_dt) eqn:Hvis.
    + rewrite decide_False, option_guard_True; [done|done|].
      rewrite elem_of_keys_to_remove. intros [_ ?]. congruence.
    + rewrite decide_True, option_guard_False; [done| |].
      * simpl. congruence.
      * apply elem_of_keys_to_remove. by eauto.
  - by case_decide.
Qed.

Lemma visible_part_lookup_Some (new_at new_dt : value) (sec : gmap string value) k v :
  visible_part new_at new_dt sec !! k = Some v
  ↔ sec !! k = Some v ∧ is_field_visible k new_at new_dt = true.
Proof. unfold visible_part. by rewrite map_lookup_filter_Some. Qed.

Lemma visible_part_idemp (new_at new_dt : value) (sec : gmap string value) :
  visible_part new_at new_dt (visible_part new_at new_dt sec) = visible_part new_at new_dt sec.
Proof.
  unfold visible_part at 1. apply map_filter_id.
  intros k v Hk. by apply visible_part_lookup_Some in Hk as [_ ?].
Qed.

Lemma keys_to_remove_visible_part (new_at new_dt : value) (sec : gmap string value) :
  keys_to_remove new_at new_dt (visible_part new_at new_dt sec) = [].
Proof.
  apply elem_of_nil_inv. intros k Hk.
  apply elem_of_keys_to_remove in Hk as [[v Hv] Hvis].
  apply visible_part_lookup_Some in Hv as [_ ?]. congruence.
Qed.

(** ** The object store: what a computation leaves alone *)

Lemma bind_Ok {A B} (r : result A) (k : A → result B) (y : B) :
  r ≫= k = Ok y → ∃ x, r = Ok x ∧ k x = Ok y.
Proof. destruct r as [x|e]; [by exists x|discriminate]. Qed.

Ltac inv_bind H :=
  let x := fresh "x" in
  let Hx := fresh "Hx" in
  apply bind_Ok in H as (x & Hx & H).

Lemma extends_refl (h : store) : extends h h.
Proof. by split. Qed.

Lemma extends_trans (h1 h2 h3 : store) : extends h1 h2 → extends h2 h3 → extends h1 h3.
Proof. intros [??] [??]. split; by etrans. Qed.

Lemma extends_set_var (h0 h : store) (lv : loc) (var : gmap string entry) :
  var_objs h0 !! lv = None → extends h0 h → extends h0 (set_var h lv var).
Proof. intros Hlv [Hv Hs]. split; [|done]. simpl. by apply insert_subseteq_r. Qed.

Lemma extends_set_sec (h0 h : store) (ls : loc) (sec : gmap string value) :
  sec_objs h0 !! ls = None → extends h0 h → extends h0 (set_sec h ls sec).
Proof. intros Hls [Hv Hs]. split; [done|]. simpl. by apply insert_subseteq_r. Qed.

Lemma fresh_lookup_None {V} (m : gmap loc V) : m !! fresh (dom m) = None.
Proof. apply not_elem_of_dom, is_fresh. Qed.

Lemma extends_sec_None (h0 h : store) (l : loc) :
  extends h0 h → sec_objs h !! l = None → sec_objs h0 !! l = None.
Proof. intros [_ Hs] Hl. by eapply lookup_weaken_None. Qed.

Lemma extends_var_None (h0 h : store) (l : loc) :
  extends h0 h → var_objs h !! l = None → var_objs h0 !! l = None.
Proof. intros [Hv _] Hl. by eapply lookup_weaken_None. Qed.

Lemma get_var_Ok (h : store) (lv : loc) (var : gmap string entry) :
  get_var h lv = Ok var ↔ var_objs h !! lv = Some var.
Proof. unfold get_var. destruct (var_objs h !! lv); split; congruence. Qed.

Lemma get_sec_Ok (h : store) (ls : loc) (sec : gmap string value) :
  get_sec h ls = Ok sec ↔ sec_objs h !! ls = Some sec.
Proof. unfold get_sec. destruct (sec_objs h !! ls); split; congruence. Qed.

(** *** deepcopy *)

Lemma copy_entries_inv (old : gmap loc (gmap string value)) (var : gmap string entry)
    memo secs out :
  map_fold (copy_entry old) (Ok (∅, old, ∅)) var = Ok (memo, secs, out) →
  old ⊆ secs
  ∧ (∀ k l, out !! k = Some (ESec l) → old !! l = None)
  ∧ (∀ l l', memo !! l = Some l' → old !! l' = None).
Proof.
  revert memo secs out.
  apply (map_fold_weak_ind (λ acc (m : gmap string entry), ∀ memo secs out,
    acc = Ok (memo, secs, out) →
    old ⊆ secs
    ∧ (∀ k l, out !! k = Some (ESec l) → old !! l = None)
    ∧ (∀ l l', memo !! l = Some l' → old !! l' = None))).
  - intros memo secs out [= <- <- <-]. split; [done|]. split; intros ??; by rewrite lookup_empty.
  - intros k e m acc _ IH memo' secs' out' Hstep.
    unfold copy_entry in Hstep. inv_bind Hstep. destruct x as [[memo secs] out].
    destruct (IH _ _ _ Hx) as (Hsub & Hout & Hmemo).
    destruct e as [a|xs|l].
    + injection Hstep as <- <- <-. split; [done|]. split; [|done].
      intros k' l'. destruct (decide (k = k')) as [->|?].
      * by rewrite lookup_insert_eq.
      * rewrite lookup_insert_ne by done. apply Hout.
    + injection Hstep as <- <- <-. split; [done|]. split; [|done].
      intros k' l'. destruct (decide (k = k')) as [->|?].
      * by rewrite lookup_insert_eq.
      * rewrite lookup_insert_ne by done. apply Hout.
    + destruct (memo !! l) as [l'|] eqn:Hl.
      * injection Hstep as <- <- <-. split; [done|]. split; [|done].
        intros k' l''. destruct (decide (k = k')) as [->|?].
        -- rewrite lookup_insert_eq. intros [= <-]. by eapply Hmemo.
        -- rewrite lookup_insert_ne by done. apply Hout.
      * destruct (old !! l) as [sec|] eqn:Hsec; [|discriminate].
        injection Hstep as <- <- <-.
        assert (old !! fresh (dom secs) = None) as Hfresh.
        { eapply lookup_weaken_None; [apply fresh_lookup_None|done]. }
        split; [|split].
        -- apply insert_subseteq_r; [done|done].
        -- intros k' l''. destruct (decide (k = k')) as [->|?].
           ++ rewrite lookup_insert_eq. by intros [= <-].
           ++ rewrite lookup_insert_ne by done. apply Hout.
        -- intros l1 l2. destruct (decide (l = l1)) as [->|?].
           ++ rewrite lookup_insert_eq. by intros [= <-].
           ++ rewrite lookup_insert_ne by done. apply Hmemo.
Qed.

Lemma deepcopy_frame (h h' : store) (lv0 lv : loc) :
  deepcopy h lv0 = Ok (lv, h') → extends h h' ∧ private h h' lv.
Proof.
  unfold deepcopy. intros H. inv_bind H. inv_bind H.
  destruct x0 as [[memo secs] out]. injection H as <- <-.
  destruct (copy_entries_inv _ _ _ _ _ Hx0) as (Hsub & Hout & _).
  split; [split|split]; simpl.
  - apply insert_subseteq, fresh_lookup_None.
  - done.
  - apply fresh_lookup_None.
  - intros var k l. rewrite lookup_insert_eq. intros [= <-]. apply Hout.
Qed.

Lemma copy_entries_content (old : gmap loc (gmap string value)) (var : gmap string entry)
    memo secs out :
  map_fold (copy_entry old) (Ok (∅, old, ∅)) var = Ok (memo, secs, out) →
  (∀ l l', memo !! l = Some l' → secs !! l' = old !! l ∧ is_Some (old !! l))
  ∧ (∀ k, out !! k = match var !! k with
                     | Some (ESec l) => ESec <$> memo !! l
                     | o => o
                     end)
  ∧ (∀ k l, var !! k = Some (ESec l) → is_Some (memo !! l)).
Proof.
  revert memo secs out.
  apply (map_fold_weak_ind (λ acc (m : gmap string entry), ∀ memo secs out,
    acc = Ok (memo, secs, out) →
    (∀ l l', memo !! l = Some l' → secs !! l' = old !! l ∧ is_Some (old !! l))
    ∧ (∀ k, out !! k = match m !! k with
                       | Some (ESec l) => ESec <$> memo !! l
                       | o => o
                       end)
    ∧ (∀ k l, m !! k = Some (ESec l) → is_Some (memo !! l)))).
  - intros memo secs out [= <- <- <-]. split; [|split]; intros ?; intros; by rewrite ?lookup_empty in *.
  - intros i e m acc Hi IH memo' secs' out' Hstep.
    unfold copy_entry in Hstep. inv_bind Hstep. destruct x as [[memo secs] out].
    destruct (IH _ _ _ Hx) as (Hmemo & Hout & Hsome).
    destruct e as [a|xs|l].
    + injection Hstep as <- <- <-. split; [done|]. split.
      * intros k. destruct (decide (i = k)) as [->|?].
        -- by rewrite !lookup_insert_eq.
        -- rewrite !lookup_insert_ne by done. apply Hout.
      * intros k l. destruct (decide (i = k)) as [->|?].
        -- by rewrite lookup_insert_eq.
        -- rewrite lookup_insert_ne by done. apply Hsome.
    + injection Hstep as <- <- <-. split; [done|]. split.
      * intros k. destruct (decide (i = k)) as [->|?].
        -- by rewrite !lookup_insert_eq.
        -- rewrite !lookup_insert_ne by done. apply Hout.
      * intros k l. destruct (decide (i = k)) as [->|?].
        -- by rewrite lookup_insert_eq.
        -- rewrite lookup_insert_ne by done. apply Hsome.
    + destruct (memo !! l) as [l'|] eqn:Hl.
      * injection Hstep as <- <- <-. split; [done|]. split.
        -- intros k. destruct (decide (i = k)) as [->|?].
           ++ by rewrite !lookup_insert_eq, Hl.
           ++ rewrite !lookup_insert_ne by done. apply Hout.
        -- intros k l0. destruct (decide (i = k)) as [->|?].
           ++ rewrite lookup_insert_eq. intros [= <-]. by rewrite Hl.
           ++ rewrite lookup_insert_ne by done. apply Hsome.
      * destruct (old !! l) as [sec|] eqn:Hsec; [|discriminate].
        injection Hstep as <- <- <-.
        pose proof (fresh_lookup_None secs) as Hfresh.
        split; [|split].
        -- intros l1 l2. destruct (decide (l = l1)) as [->|?].
           ++ rewrite lookup_insert_eq. intros [= <-]. by rewrite lookup_insert_eq, Hsec.
           ++ rewrite lookup_insert_ne by done. intros Hm.
              destruct (Hmemo _ _ Hm) as [Hs Hsome1]. split; [|done].
              rewrite lookup_insert_ne; [done|]. intros <-.
              rewrite Hfresh in Hs. rewrite <- Hs in Hsome1. by destruct Hsome1.
        -- intros k. destruct (decide (i = k)) as [->|?].
           ++ by rewrite !lookup_insert_eq.
           ++ rewrite !lookup_insert_ne by done. rewrite Hout.
              destruct (m !! k) as [[a|xs|l0]|] eqn:Hk; try done.
              rewrite lookup_insert_ne; [done|]. intros <-.
              destruct (Hsome _ _ Hk) as [? ?]. congruence.
        -- intros k l0. destruct (decide (i = k)) as [->|?].
           ++ rewrite lookup_insert_eq. intros [= <-]. by rewrite lookup_insert_eq.
           ++ rewrite lookup_insert_ne by done. intros Hk.
              destruct (Hsome _ _ Hk) as [l2 Hl2].
              destruct (decide (l = l0)) as [->|?]; [congruence|].
              by rewrite lookup_insert_ne.
Qed.

(** The copy shows what the original shows. *)
Lemma deepcopy_snapshot (h h' : store) (lv0 lv : loc) (v : gmap string value) :
  deepcopy h lv0 = Ok (lv, h') → snapshot h lv0 = Some v → snapshot h' lv = Some v.
Proof.
  unfold deepcopy. intros H. inv_bind H. rename x into var. apply get_var_Ok in Hx.
  inv_bind H. destruct x as [[memo secs] out]. injection H as <- <-.
  destruct (copy_entries_content _ _ _ _ _ Hx0) as (Hmemo & Hout & Hsome).
  unfold snapshot. rewrite Hx. cbn [var_objs sec_objs]. rewrite lookup_insert_eq.
  case_decide as Hclosed; [|discriminate]. intros [= <-].
  assert (∀ k, snapshot_entry (Store (<[fresh (dom (var_objs h)) := out]> (var_objs h)) secs)
                 <$> out !! k
               = snapshot_entry h <$> var !! k) as Hsame.
  { intros k. rewrite Hout. destruct (var !! k) as [[a|xs|l]|] eqn:Hk; try done.
    destruct (Hsome _ _ Hk) as [l' Hl']. rewrite Hl'. cbn.
    by destruct (Hmemo _ _ Hl') as [-> _]. }
  rewrite decide_True.
  - f_equal. apply map_eq. intros k. rewrite !lookup_omap.
    specialize (Hsame k). destruct (out !! k), (var !! k); by simplify_eq/=.
  - intros k e Hk. specialize (Hsame k). rewrite Hk in Hsame.
    destruct (var !! k) as [e'|] eqn:Hk'; [|done]. cbn in Hsame.
    injection Hsame as ->. by eapply Hclosed.
Qed.

(** *** The patch *)

Lemma apply_root_frame (p : patch) (h0 h h' : store) (lv : loc) :
  apply_root p lv h = Ok h' → extends h0 h → private h0 h lv →
  extends h0 h' ∧ private h0 h' lv.
Proof.
  unfold apply_root. intros H Hext [Hlv Hsec]. inv_bind H. injection H as <-.
  apply get_var_Ok in Hx. split; [by apply extends_set_var|].
  split; [done|]. intros var k l. simpl. rewrite lookup_insert_eq. intros [= <-].
  rewrite dict_update_union. intros Hk.
  apply lookup_union_Some_raw in Hk as [Hk|[_ Hk]].
  - rewrite lookup_fmap in Hk. by destruct (root p !! k).
  - by eapply Hsec.
Qed.

Lemma apply_nested_section_frame (h0 h h' : store) (lv : loc) (section : string)
    (fields : gmap string value) :
  apply_nested_section lv section fields (Ok h) = Ok h' →
  extends h0 h → private h0 h lv →
  extends h0 h' ∧ private h0 h' lv.
Proof.
  unfold apply_nested_section. intros H Hext [Hlv Hsec]. cbn in H.
  case_bool_decide; [by simplify_eq|].
  inv_bind H. apply get_var_Ok in Hx. rename x into var.
  inv_bind H. destruct x as [ls h1].
  inv_bind H. injection H as <-.
  destruct (var !! section) as [[a|xs|l]|] eqn:Hs; try discriminate.
  - (* the section exists: it is one of the copy's own *)
    injection Hx0 as <- <-.
    split; [apply extends_set_sec; [by eapply Hsec|done]|].
    split; [done|]. intros var' k l'. simpl. by apply Hsec.
  - (* a new, empty section is allocated first *)
    injection Hx0 as <- <-.
    assert (sec_objs h0 !! fresh (dom (sec_objs h)) = None) as Hfresh.
    { eapply extends_sec_None; [done|apply fresh_lookup_None]. }
    split.
    + apply extends_set_sec; [done|]. apply extends_set_var; [done|].
      by apply extends_set_sec.
    + split; [done|]. intros var' k l'. simpl. rewrite lookup_insert_eq. intros [= <-].
      destruct (decide (section = k)) as [->|?].
      * rewrite lookup_insert_eq. by intros [= <-].
      * rewrite lookup_insert_ne by done. by apply Hsec.
Qed.

Lemma apply_nested_frame (p : patch) (h0 h h' : store) (lv : loc) :
  apply_nested p lv h = Ok h' → extends h0 h → private h0 h lv →
  extends h0 h' ∧ private h0 h' lv.
Proof.
  unfold apply_nested. intros H Hext Hpriv. revert h' H.
  apply (map_fold_weak_ind (λ acc (m : gmap string (gmap string value)), ∀ h',
    acc = Ok h' → extends h0 h' ∧ private h0 h' lv)).
  - by intros h' [= <-].
  - intros section fields m acc _ IH h' Hstep.
    destruct acc as [h1|e]; [|discriminate].
    destruct (IH h1 eq_refl) as [Hext1 Hpriv1].
    by eapply apply_nested_section_frame.
Qed.

(** *** Pruning *)

Lemma prune_section_frame (new_at new_dt : value) (h0 h h' : store) (lv : loc)
    (section : string) (pruned pruned' : list string) :
  prune_section new_at new_dt lv section h pruned = Ok (h', pruned') →
  extends h0 h → private h0 h lv →
  extends h0 h' ∧ private h0 h' lv.
Proof.
  unfold prune_section. intros H Hext [Hlv Hsec]. inv_bind H.
  apply get_var_Ok in Hx. rename x into var.
  destruct (var !! section) as [[a|xs|l]|] eqn:Hs; try discriminate.
  - inv_bind H. injection H as <- <-.
    split; [apply extends_set_sec; [by eapply Hsec|done]|].
    split; [done|]. intros var' k l'. simpl. by apply Hsec.
  - by injection H as <- <-.
Qed.

Lemma prune_sections_frame (new_at new_dt : value) (sections : list string)
    (h0 h h' : store) (lv : loc) (pruned pruned' : list string) :
  prune_sections new_at new_dt lv sections h pruned = Ok (h', pruned') →
  extends h0 h → private h0 h lv →
  extends h0 h' ∧ private h0 h' lv.
Proof.
  revert h pruned. induction sections as [|section rest IH]; intros h pruned H Hext Hpriv.
  - by injection H as <- <-.
  - cbn [prune_sections] in H. inv_bind H. destruct x as [h1 pruned1].
    destruct (prune_section_frame _ _ _ _ _ _ _ _ _ Hx Hext Hpriv).
    by eapply IH.
Qed.

Lemma prune_step_frame (h0 h h' : store) (lv : loc) (pruned : list string) :
  prune_step lv h = Ok (h', pruned) → extends h0 h → private h0 h lv →
  extends h0 h' ∧ private h0 h' lv.
Proof.
  unfold prune_step. intros H. do 3 inv_bind H. by eapply prune_sections_frame.
Qed.

(** *** One target, then all of them *)

Lemma cascade_target_frame (p : patch) (variables : list loc) (idx : Z) (h h' : store) u :
  cascade_target p variables idx h = Ok (u, h') → extends h h'.
Proof.
  unfold cascade_target. intros H.
  inv_bind H. inv_bind H. destruct x0 as [lv h1].
  inv_bind H. inv_bind H. inv_bind H. destruct x2 as [h4 pruned]. injection H as <- <-.
  destruct (deepcopy_frame _ _ _ _ Hx0) as [Hext1 Hpriv1].
  destruct (apply_root_frame _ _ _ _ _ Hx1 Hext1 Hpriv1) as [Hext2 Hpriv2].
  destruct (apply_nested_frame _ _ _ _ _ Hx2 Hext2 Hpriv2) as [Hext3 Hpriv3].
  by destruct (prune_step_frame _ _ _ _ _ Hx3 Hext3 Hpriv3).
Qed.

Lemma compute_updates_frame (p : patch) (variables : list loc) (selected : list Z)
    (h h' : store) us :
  compute_updates p variables selected h = Ok (us, h') → extends h h'.
Proof.
  revert h us. induction selected as [|idx rest IH]; intros h us H.
  - injection H as <- <-. apply extends_refl.
  - cbn [compute_updates] in H. inv_bind H. destruct x as [u h1].
    inv_bind H. destruct x as [us1 h2]. injection H as <- <-.
    eapply extends_trans; [by eapply cascade_target_frame|by eapply IH].
Qed.

Lemma compute_updates_indices (p : patch) (variables : list loc) (selected : list Z)
    (h h' : store) us :
  compute_updates p variables selected h = Ok (us, h') → (λ u, u.1.1) <$> us = selected.
Proof.
  revert h us. induction selected as [|idx rest IH]; intros h us H.
  - by injection H as <- <-.
  - cbn [compute_updates] in H. inv_bind H. destruct x as [u h1].
    inv_bind H. destruct x as [us1 h2]. injection H as <- <-.
    cbn. f_equal; [|by eapply IH].
    unfold cascade_target in Hx. do 2 inv_bind Hx. destruct x0 as [lv h3].
    do 3 inv_bind Hx. destruct x2 as [h4 pruned]. by injection Hx as <- <-.
Qed.

(** *** What a Ledger entry shows *)

Lemma snapshot_extends (h h' : store) (lv : loc) (v : gmap string value) :
  extends h h' → snapshot h lv = Some v → snapshot h' lv = Some v.
Proof.
  intros [Hv Hs]. unfold snapshot.
  destruct (var_objs h !! lv) as [var|] eqn:Hvar; [|discriminate].
  rewrite (lookup_weaken _ _ _ _ Hvar Hv).
  case_decide as Hclosed; [|discriminate]. intros [= <-].
  assert (∀ k e, var !! k = Some e → snapshot_entry h' e = snapshot_entry h e) as Hsame.
  { intros k e Hk. destruct (Hclosed k e Hk) as [x He].
    destruct e as [a|xs|l]; [done|done|]. simpl in *.
    destruct (sec_objs h !! l) as [sec|] eqn:Hl; [|discriminate].
    by rewrite (lookup_weaken _ _ _ _ Hl Hs). }
  rewrite decide_True.
  - f_equal. apply map_eq. intros k. rewrite !lookup_omap.
    destruct (var !! k) as [e|] eqn:Hk; [|done]. simpl. by eapply Hsame.
  - intros k e Hk. rewrite (Hsame k e Hk). by eapply Hclosed.
Qed.

(** *** The commit *)

Lemma py_index_length {A B} (l : list A) (l' : list B) (i : Z) :
  length l = length l' → py_index l i = py_index l' i.
Proof. intros Hlen. unfold py_index. by rewrite Hlen. Qed.

Lemma replace_entries_length (variables variables' : list loc)
    (us : list (Z * loc * list string)) :
  replace_entries variables us = Ok variables' → length variables' = length variables.
Proof.
  revert variables. induction us as [|[[idx new_var] pruned] us IH]; intros variables H.
  - by injection H as <-.
  - cbn [replace_entries] in H. inv_bind H. rename x into variables1.
    unfold py_setitem in Hx.
    destruct (py_index variables idx) as [n|]; [|discriminate].
    injection Hx as <-. by rewrite (IH _ H), length_insert.
Qed.

Lemma replace_entries_other (variables variables' : list loc)
    (us : list (Z * loc * list string)) (i : nat) :
  replace_entries variables us = Ok variables' →
  (∀ u, u ∈ us → py_index variables u.1.1 ≠ Some i) →
  variables' !! i = variables !! i.
Proof.
  revert variables. induction us as [|[[idx new_var] pruned] us IH]; intros variables H Hne.
  - by injection H as <-.
  - cbn [replace_entries] in H. inv_bind H. rename x into variables1.
    unfold py_setitem in Hx.
    destruct (py_index variables idx) as [n|] eqn:Hn; [|discriminate].
    injection Hx as <-.
    assert (n ≠ i) as Hni.
    { intros ->. eapply (Hne (idx, new_var, pruned)); [set_solver|done]. }
    rewrite (IH _ H).
    + by apply list_lookup_insert_ne.
    + intros u Hu. rewrite (py_index_length _ variables) by apply length_insert.
      apply Hne. set_solver.
Qed.

Lemma replace_entries_total (variables : list loc) (us : list (Z * loc * list string)) :
  (∀ u, u ∈ us → is_Some (py_index variables u.1.1)) →
  ∃ variables', replace_entries variables us = Ok variables'.
Proof.
  revert variables. induction us as [|[[idx new_var] pruned] us IH]; intros variables Hok.
  - by eexists.
  - cbn [replace_entries]. unfold py_setitem.
    destruct (Hok (idx, new_var, pruned)) as [n Hn]; [set_solver|].
    cbn in Hn. rewrite Hn. cbn [mbind result_bind]. apply IH.
    intros u Hu. rewrite (py_index_length _ variables) by apply length_insert.
    apply Hok. set_solver.
Qed.

Lemma compute_updates_valid (p : patch) (variables : list loc) (selected : list Z)
    (h h' : store) us :
  compute_updates p variables selected h = Ok (us, h') →
  ∀ u, u ∈ us → is_Some (py_index variables u.1.1).
Proof.
  revert h us. induction selected as [|idx rest IH]; intros h us H u Hu.
  - injection H as <- <-. by apply elem_of_nil in Hu.
  - cbn [compute_updates] in H. inv_bind H. destruct x as [u1 h1].
    inv_bind H. destruct x as [us1 h2]. injection H as <- <-.
    apply elem_of_cons in Hu as [->|Hu]; [|by eapply IH].
    unfold cascade_target in Hx. do 2 inv_bind Hx. destruct x0 as [lv h3].
    do 3 inv_bind Hx. destruct x2 as [h4 pruned]. injection Hx as <- <-.
    cbn [fst snd]. unfold py_getitem in Hx1. by destruct (py_index variables idx).
Qed.

(** C7.  Phase 3 of the batch editor works on copies.  Whatever it shows
    ([review], the cascade over every selected index), each object of the
    store is afterwards what it was, so every Ledger entry, selected or not,
    still shows the same content: abandoning the dialog at this point leaves
    the Ledger as it was.  Pressing the commit button ([confirm]) then
    succeeds and replaces Ledger entries only at the selected positions;
    every other position holds the same object with the same content. *)
Theorem cascade_leaves_ledger_alone (st : batch_state) (pv : preview) (h' : store) :
  review st = Ok (pv, h') →
  extends (objects st) h'
  ∧ (∀ i lv v, ledger st !! i = Some lv →
       snapshot (objects st) lv = Some v → snapshot h' lv = Some v)
  ∧ (∀ us n, pv = Pruning us n → ∃ st', confirm us h' st = Ok st')
  ∧ (∀ us n st', pv = Pruning us n → confirm us h' st = Ok st' →
       length (ledger st') = length (ledger st)
       ∧ ∀ i lv,
           (∀ idx, idx ∈ batch_selected_indices st → py_index (ledger st) idx ≠ Some i) →
           ledger st !! i = Some lv →
           ledger st' !! i = Some lv
           ∧ ∀ v, snapshot (objects st) lv = Some v → snapshot (objects st') lv = Some v).
Proof.
  intros Hreview.
  assert (extends (objects st) h'
          ∧ ∀ us n, pv = Pruning us n →
              (λ u, u.1.1) <$> us = batch_selected_indices st
              ∧ ∀ u, u ∈ us → is_Some (py_index (ledger st) u.1.1))
    as [Hext Hidx].
  { unfold review in Hreview. repeat case_bool_decide.
    - injection Hreview as <- <-. split; [apply extends_refl|done].
    - injection Hreview as <- <-. split; [apply extends_refl|done].
    - inv_bind Hreview. destruct x as [us h1]. injection Hreview as <- <-.
      split; [by eapply compute_updates_frame|].
      intros us' n [= <- _].
      split; [by eapply compute_updates_indices|by eapply compute_updates_valid]. }
  split; [done|]. split; [|split].
  - intros i lv v _. by apply snapshot_extends.
  - intros us n ->. destruct (Hidx us n eq_refl) as [_ Hvalid].
    destruct (replace_entries_total _ _ Hvalid) as [variables' Hrep].
    unfold confirm. rewrite Hrep. by eexists.
  - intros us n st' -> Hconfirm. unfold confirm in Hconfirm.
    inv_bind Hconfirm. injection Hconfirm as <-. simpl.
    destruct (Hidx us n eq_refl) as [Hsel _].
    split.
    + by eapply replace_entries_length.
    + intros i lv Hother Hi.
      rewrite (replace_entries_other _ _ _ i Hx).
      * split; [done|]. intros v. by apply snapshot_extends.
      * intros u Hu. apply Hother. rewrite <- Hsel.
        apply list_elem_of_fmap. by exists u.
Qed.

(** ** The prune step *)

Lemma data_type_block_same (k : string) (dt dt' : value) :
  same_literals dt dt' →
  truthy dt && data_type_suppresses k dt = truthy dt' && data_type_suppresses k dt'.
Proof.
  intros Hdt.
  assert (data_type_suppresses k dt = data_type_suppresses k dt') as Hs.
  { unfold data_type_suppresses. by rewrite !Hdt. }
  rewrite <- Hs. destruct (data_type_suppresses k dt) eqn:E; [|by rewrite !andb_false_r].
  rewrite !andb_true_r. unfold data_type_suppresses in E.
  assert (∃ s, is_str dt s = true) as [s Hstr].
  { destruct (is_str dt "string") eqn:E1; [by eauto|].
    destruct (is_str dt "category") eqn:E2; [by eauto|].
    destruct (is_str dt "bool") eqn:E3; [by eauto|]. discriminate. }
  assert (dt = VStr s) as -> by (by apply is_str_true_iff).
  rewrite Hdt in Hstr. by apply is_str_true_iff in Hstr as ->.
Qed.

Lemma is_field_visible_same (k : string) (a a' dt dt' : value) :
  same_literals a a' → same_literals dt dt' →
  is_field_visible k a dt = is_field_visible k a' dt'.
Proof.
  intros Ha Hdt. unfold is_field_visible, val_in. cbn [existsb].
  by rewrite !Ha, (data_type_block_same k dt dt' Hdt).
Qed.

Lemma visible_part_same (a a' dt dt' : value) (sec : gmap string value) :
  same_literals a a' → same_literals dt dt' →
  visible_part a dt sec = visible_part a' dt' sec.
Proof.
  intros Ha Hdt. unfold visible_part. apply map_filter_ext.
  intros k v _. simpl. by rewrite (is_field_visible_same k a a' dt dt').
Qed.

Lemma set_sec_id (h : store) (ls : loc) (sec : gmap string value) :
  sec_objs h !! ls = Some sec → set_sec h ls sec = h.
Proof. intros H. destruct h as [vars secs]. unfold set_sec. simpl in *. by rewrite insert_id. Qed.

(** A section already reduced to its visible part is left as it is. *)
Lemma prune_sections_noop (new_at new_dt : value) (lv : loc) (sections : list string)
    (h : store) (pruned : list string) (var : gmap string entry) :
  var_objs h !! lv = Some var →
  (∀ s, s ∈ sections →
     var !! s = None
     ∨ ∃ ls sec, var !! s = Some (ESec ls) ∧ sec_objs h !! ls = Some sec
         ∧ visible_part new_at new_dt sec = sec) →
  prune_sections new_at new_dt lv sections h pruned = Ok (h, pruned).
Proof.
  intros Hvar. induction sections as [|s rest IH]; intros Hclean; [done|].
  cbn [prune_sections]. unfold prune_section.
  rewrite (proj2 (get_var_Ok _ _ _) Hvar). cbn.
  destruct (Hclean s) as [->|(ls & sec & -> & Hsec & Hvis)]; [set_solver| |].
  - cbn. apply IH. intros s' Hs'. apply Hclean. set_solver.
  - rewrite (proj2 (get_sec_Ok _ _ _) Hsec). cbn.
    assert (keys_to_remove new_at new_dt sec = []) as ->.
    { rewrite <- Hvis. apply keys_to_remove_visible_part. }
    cbn [del_keys foldl]. rewrite set_sec_id by done.
    rewrite app_nil_r. apply IH. intros s' Hs'. apply Hclean. set_solver.
Qed.

(** What the four rounds do to the store: the variable object is not
    written; a section object is either untouched or reduced to its visible
    part, and the section of every name in the list is reduced. *)
Lemma prune_sections_spec (new_at new_dt : value) (lv : loc) (sections : list string)
    (h h' : store) (pruned pruned' : list string) (var : gmap string entry) :
  var_objs h !! lv = Some var →
  prune_sections new_at new_dt lv sections h pruned = Ok (h', pruned') →
  var_objs h' = var_objs h
  ∧ (∀ l, sec_objs h' !! l = sec_objs h !! l
          ∨ sec_objs h' !! l = visible_part new_at new_dt <$> sec_objs h !! l)
  ∧ (∀ s, s ∈ sections →
       var !! s = None
       ∨ ∃ ls sec, var !! s = Some (ESec ls) ∧ sec_objs h !! ls = Some sec
           ∧ sec_objs h' !! ls = Some (visible_part new_at new_dt sec)).
Proof.
  revert h pruned. induction sections as [|s rest IH]; intros h pruned Hvar H.
  - injection H as <- <-. split; [done|]. split; [by left|]. intros s Hs. set_solver.
  - cbn [prune_sections] in H. inv_bind H. destruct x as [h1 pruned1].
    unfold prune_section in Hx. rewrite (proj2 (get_var_Ok _ _ _) Hvar) in Hx. cbn in Hx.
    destruct (var !! s) as [[a|xs|ls0]|] eqn:Hs; try discriminate.
    + inv_bind Hx. rename x into sec0. apply get_sec_Ok in Hx0.
      injection Hx as <- <-. rewrite del_keys_to_remove in H.
      destruct (IH (set_sec h ls0 (visible_part new_at new_dt sec0)) _ Hvar H)
        as (Hv & Hl & Hdone). cbn [set_sec sec_objs var_objs] in Hv, Hl, Hdone.
      assert (sec_objs h' !! ls0 = Some (visible_part new_at new_dt sec0)) as Hls0.
      { destruct (Hl ls0) as [E|E]; rewrite lookup_insert_eq in E; rewrite E; [done|].
        unfold fmap, option_fmap, option_map. by rewrite visible_part_idemp. }
      split; [done|]. split.
      { intros l. destruct (decide (ls0 = l)) as [<-|Hne].
        - right. rewrite Hls0, Hx0. done.
        - destruct (Hl l) as [E|E]; rewrite lookup_insert_ne in E by done; auto. }
      intros s' Hs'. destruct (decide (s' = s)) as [->|Hne].
      * right. by exists ls0, sec0.
      * destruct (Hdone s') as [?|(ls & sec & Hk & Hsec & Hres)]; [set_solver|by left|].
        right. destruct (decide (ls0 = ls)) as [<-|Hne'].
        -- by exists ls0, sec0.
        -- rewrite lookup_insert_ne in Hsec by done. by exists ls, sec.
    + injection Hx as <- <-.
      destruct (IH _ _ Hvar H) as (Hv & Hl & Hdone).
      split; [done|]. split; [done|].
      intros s' Hs'. destruct (decide (s' = s)) as [->|Hne]; [by left|].
      apply Hdone. set_solver.
Qed.

Lemma prune_sections_total (new_at new_dt : value) (lv : loc) (sections : list string)
    (h : store) (pruned : list string) (var : gmap string entry) :
  var_objs h !! lv = Some var →
  (∀ s, s ∈ sections →
     var !! s = None ∨ ∃ ls, var !! s = Some (ESec ls) ∧ is_Some (sec_objs h !! ls)) →
  ∃ h' pruned', prune_sections new_at new_dt lv sections h pruned = Ok (h', pruned').
Proof.
  revert h pruned. induction sections as [|s rest IH]; intros h pruned Hvar Hok.
  - by eexists _, _.
  - cbn [prune_sections]. unfold prune_section.
    rewrite (proj2 (get_var_Ok _ _ _) Hvar). cbn.
    destruct (Hok s) as [->|(ls & -> & [sec Hsec])]; [set_solver| |].
    + cbn. apply IH; [done|]. intros s' Hs'. apply Hok. set_solver.
    + rewrite (proj2 (get_sec_Ok _ _ _) Hsec). cbn. apply IH; [done|].
      intros s' Hs'. destruct (Hok s') as [?|(ls' & ? & Hsome)]; [set_solver|by left|].
      right. exists ls'. split; [done|]. cbn.
      destruct (decide (ls = ls')) as [<-|?].
      * by rewrite lookup_insert_eq.
      * by rewrite lookup_insert_ne.
Qed.

Lemma read_entry_same (h h' : store) (e : entry) (v : value)
    (f : gmap string value → gmap string value) :
  (∀ l, sec_objs h' !! l = sec_objs h !! l ∨ sec_objs h' !! l = f <$> sec_objs h !! l) →
  read_entry h e = Ok v →
  ∃ v', read_entry h' e = Ok v' ∧ same_literals v v'.
Proof.
  intros Hl. destruct e as [a|xs|l]; cbn.
  - intros [= <-]. by eexists.
  - intros [= <-]. by eexists.
  - intros H. inv_bind H. apply get_sec_Ok in Hx. injection H as <-.
    unfold get_sec. destruct (Hl l) as [-> | ->]; rewrite Hx; cbn; by eexists.
Qed.

Lemma read_entry_total (h : store) (var : gmap string entry) (key dflt : string) :
  (∀ k l, var !! k = Some (ESec l) → is_Some (sec_objs h !! l)) →
  ∃ v, read_entry h (default (EAtom (AStr dflt)) (var !! key)) = Ok v.
Proof.
  intros Hclosed. destruct (var !! key) as [[a|xs|l]|] eqn:Hk; cbn; try by eexists.
  destruct (Hclosed _ _ Hk) as [sec Hsec]. unfold get_sec. rewrite Hsec. by eexists.
Qed.

Lemma well_formed_sections (h : store) (var : gmap string entry) :
  (∀ k l, var !! k = Some (ESec l) → is_Some (sec_objs h !! l)) →
  (∀ s e, s ∈ metadata_sections → var !! s = Some e → ∃ l, e = ESec l) →
  ∀ s, s ∈ metadata_sections →
    var !! s = None ∨ ∃ ls, var !! s = Some (ESec ls) ∧ is_Some (sec_objs h !! ls).
Proof.
  intros Hclosed Hdict s Hs. destruct (var !! s) as [e|] eqn:Hk; [|by left].
  right. destruct (Hdict s e Hs Hk) as [l ->]. exists l. split; [done|].
  by eapply Hclosed.
Qed.

(** C3.  Pruning is idempotent.  On a variable of the data model the prune
    step returns; and whenever it returns, running it again on the result
    removes nothing and leaves the store, hence the variable, exactly as the
    first run left it. *)
Theorem prune_step_idempotent (h : store) (lv : loc) :
  (well_formed h lv → ∃ h1 pruned, prune_step lv h = Ok (h1, pruned))
  ∧ (∀ h1 pruned, prune_step lv h = Ok (h1, pruned) → prune_step lv h1 = Ok (h1, [])).
Proof.
  split.
  - intros (var & Hvar & Hclosed & Hdict). unfold prune_step.
    rewrite (proj2 (get_var_Ok _ _ _) Hvar). cbn [mbind result_bind].
    destruct (read_entry_total h var "analytical_type" "continuous" Hclosed) as [a ->].
    destruct (read_entry_total h var "data_type" "float64" Hclosed) as [dt ->].
    cbn [mbind result_bind].
    apply (prune_sections_total _ _ _ _ _ _ var); [done|].
    by apply well_formed_sections.
  - intros h1 pruned H. unfold prune_step in H |- *.
    inv_bind H. rename x into var. apply get_var_Ok in Hx.
    inv_bind H. rename x into a. inv_bind H. rename x into dt.
    destruct (prune_sections_spec _ _ _ _ _ _ _ _ var Hx H) as (Hv & Hl & Hdone).
    assert (var_objs h1 !! lv = Some var) as Hvar1 by (by rewrite Hv).
    rewrite (proj2 (get_var_Ok _ _ _) Hvar1). cbn [mbind result_bind].
    destruct (read_entry_same h h1 _ _ _ Hl Hx0) as (a' & -> & Ha).
    destruct (read_entry_same h h1 _ _ _ Hl Hx1) as (dt' & -> & Hdt).
    cbn [mbind result_bind].
    apply (prune_sections_noop _ _ _ _ _ _ var); [done|].
    intros s Hs. destruct (Hdone s Hs) as [?|(ls & sec & Hk & Hsec & Hres)]; [by left|].
    right. exists ls, (visible_part a dt sec). split; [done|]. split; [done|].
    rewrite <- (visible_part_same a a' dt dt') by done. apply visible_part_idemp.
Qed.

(** ** Variables without a declared type *)

Lemma effective_type_read (h : store) (var : gmap string entry) (key dflt : string) (v : value) :
  effective_type var key dflt v →
  read_entry h (default (EAtom (AStr dflt)) (var !! key)) = Ok v.
Proof. by intros [[-> ->]|(a & -> & ->)]. Qed.

Lemma prune_sections_pruned (new_at new_dt : value) (lv : loc) (sections : list string)
    (h h' : store) (pruned pruned' : list string) :
  prune_sections new_at new_dt lv sections h pruned = Ok (h', pruned') →
  ∀ k, k ∈ pruned' → k ∈ pruned ∨ is_field_visible k new_at new_dt = false.
Proof.
  revert h pruned. induction sections as [|s rest IH]; intros h pruned H k Hk.
  - injection H as <- <-. by left.
  - cbn [prune_sections] in H. inv_bind H. destruct x as [h1 pruned1].
    destruct (IH _ _ H k Hk) as [Hin|?]; [|by right].
    unfold prune_section in Hx. inv_bind Hx.
    destruct (x !! s) as [[a|xs|ls]|]; try discriminate.
    + inv_bind Hx. injection Hx as <- <-.
      apply elem_of_app in Hin as [?|Hin]; [by left|right].
      by apply elem_of_keys_to_remove in Hin as [_ ?].
    + injection Hx as <- <-. by left.
Qed.

(** C10.  A variable of the data model that has no [analytical_type] key
    is pruned with ["continuous"] in its place, and one that has no
    [data_type] key with ["float64"]: the prune step returns (the variable
    is neither skipped nor an error), each metadata section it has is
    reduced to the keys visible for these types, and every key reported as
    pruned is invisible for them. *)
Theorem untyped_variable_defaults (h : store) (lv : loc) (var : gmap string entry)
    (new_at new_dt : value) :
  var_objs h !! lv = Some var → well_formed h lv →
  effective_type var "analytical_type" "continuous" new_at →
  effective_type var "data_type" "float64" new_dt →
  (var !! "analytical_type" = None → new_at = VStr "continuous")
  ∧ (var !! "data_type" = None → new_dt = VStr "float64")
  ∧ ∃ h' pruned,
      prune_step lv h = Ok (h', pruned)
      ∧ var_objs h' = var_objs h
      ∧ (∀ s ls sec, s ∈ metadata_sections →
           var !! s = Some (ESec ls) → sec_objs h !! ls = Some sec →
           sec_objs h' !! ls = Some (visible_part new_at new_dt sec))
      ∧ (∀ k, k ∈ pruned → is_field_visible k new_at new_dt = false).
Proof.
  intros Hvar (var' & Hvar' & Hclosed & Hdict) Hat Hdt.
  assert (var' = var) as -> by congruence.
  split; [|split].
  - intros Hnone. destruct Hat as [[_ ->]|(a & ? & _)]; [done|congruence].
  - intros Hnone. destruct Hdt as [[_ ->]|(a & ? & _)]; [done|congruence].
  - destruct (prune_sections_total new_at new_dt lv metadata_sections h [] var Hvar)
      as (h' & pruned & Hrun); [by apply well_formed_sections|].
    exists h', pruned.
    destruct (prune_sections_spec _ _ _ _ _ _ _ _ var Hvar Hrun) as (Hv & _ & Hdone).
    split; [|split; [done|split]].
    + unfold prune_step. rewrite (proj2 (get_var_Ok _ _ _) Hvar). cbn [mbind result_bind].
      rewrite (effective_type_read _ _ _ _ _ Hat), (effective_type_read _ _ _ _ _ Hdt).
      exact Hrun.
    + intros s ls sec Hs Hk Hsec.
      destruct (Hdone s Hs) as [?|(ls' & sec' & ? & ? & ?)]; congruence.
    + intros k Hk. destruct (prune_sections_pruned _ _ _ _ _ _ _ _ Hrun k Hk); [|done].
      set_solver.
Qed.

(** ** Scenario D: a numeric variable turned binary *)

(** C1.  The cascade of Scenario D, run on the code: the copy made for the
    selected variable is at location 1, the pruning report names
    [allowed_values] next to [min_value] and [max_value], and the constraints
    of the copy are empty afterwards.  The labels go whatever the data type
    is, because [allowed_values] is in the [binary] suppression list. *)
Theorem scenario_D_prunes_allowed_values :
  review scenario_D_state
  = Ok (Pruning [(0%Z, 1%nat, ["min_value"; "max_value"; "allowed_values"])] 3,
        scenario_D_after)
  ∧ snapshot scenario_D_after 1%nat ≫= (.!! "constraints") = Some (VDict ∅)
  ∧ ∀ data_type, is_field_visible "allowed_values" (VStr "binary") data_type = false.
Proof.
  split; [|split].
  - vm_cast_no_check
      (eq_refl (Ok (Pruning [(0%Z, 1%nat, ["min_value"; "max_value"; "allowed_values"])] 3,
                    scenario_D_after))).
  - vm_cast_no_check (eq_refl (Some (VDict ∅))).
  - intros data_type. reflexivity.
Qed.

(** ** Worked instances *)

Lemma prune_step_idempotent_witness :
  ∃ h1 pruned, prune_step 0%nat scenario_D_store = Ok (h1, pruned)
    ∧ prune_step 0%nat h1 = Ok (h1, []).
Proof.
  destruct (prune_step 0%nat scenario_D_store) as [[h1 pruned]|e] eqn:E.
  - exists h1, pruned. split; [reflexivity|].
    destruct (prune_step_idempotent scenario_D_store 0%nat) as [_ Hidem].
    exact (Hidem h1 pruned E).
  - vm_compute in E. discriminate E.
Defined.

Lemma cascade_leaves_ledger_alone_witness :
  review scenario_D_state
  = Ok (Pruning [(0%Z, 1%nat, ["min_value"; "max_value"; "allowed_values"])] 3,
        scenario_D_after)
  ∧ extends scenario_D_store scenario_D_after.
Proof.
  assert (review scenario_D_state
          = Ok (Pruning [(0%Z, 1%nat, ["min_value"; "max_value"; "allowed_values"])] 3,
                scenario_D_after)) as Hreview.
  { vm_cast_no_check
      (eq_refl (Ok (Pruning [(0%Z, 1%nat, ["min_value"; "max_value"; "allowed_values"])] 3,
                    scenario_D_after))). }
  split; [exact Hreview|].
  exact (proj1 (cascade_leaves_ledger_alone scenario_D_state _ _ Hreview)).
Defined.

Lemma untyped_store_well_formed : well_formed untyped_store 0%nat.
Proof.
  exists untyped_var. split; [reflexivity|]. unfold untyped_var. split.
  - intros k l Hk.
    apply lookup_insert_Some in Hk as [[_ [=]]|[_ Hk]].
    apply lookup_insert_Some in Hk as [[_ [= <-]]|[_ Hk]]; [by eexists|].
    by rewrite lookup_empty in Hk.
  - intros s e Hs Hk.
    apply lookup_insert_Some in Hk as [[<- _]|[_ Hk]].
    + exfalso. unfold metadata_sections in Hs.
      repeat (apply elem_of_cons in Hs as [Hs|Hs]; [discriminate Hs|]).
      by apply elem_of_nil in Hs.
    + apply lookup_insert_Some in Hk as [[_ <-]|[_ Hk]]; [by eexists|].
      by rewrite lookup_empty in Hk.
Qed.

Lemma untyped_variable_defaults_witness :
  ∃ h' pruned, prune_step 0%nat untyped_store = Ok (h', pruned)
    ∧ sec_objs h' !! 0%nat
      = Some (visible_part (VStr "continuous") (VStr "float64")
                (<["min_value" := VInt 1]>
                   (<["allowed_values" := VList [VStr "A"; VStr "B"]]> ∅))).
Proof.
  destruct (untyped_variable_defaults untyped_store 0%nat untyped_var
              (VStr "continuous") (VStr "float64"))
    as (_ & _ & h' & pruned & Hrun & _ & Hsec & _).
  - reflexivity.
  - exact untyped_store_well_formed.
  - left. split; reflexivity.
  - left. split; reflexivity.
  - exists h', pruned. split; [exact Hrun|].
    apply (Hsec "constraints" 0%nat).
    + unfold metadata_sections. apply elem_of_cons. left. reflexivity.
    + reflexivity.
    + reflexivity.
Defined.

(** * Further properties of the coherence engine *)

Lemma analytical_type_cases (a : value) :
  (∃ s, s ∈ known_analytical_types ∧ a = VStr s)
  ∨ (is_str a "continuous" = false ∧ is_str a "discrete" = false
     ∧ is_str a "nominal" = false ∧ is_str a "ordinal" = false
     ∧ is_str a "binary" = false ∧ is_str a "text" = false
     ∧ is_str a "time_index" = false ∧ is_str a "spatial" = false).
Proof.
  destruct (is_str a "continuous") eqn:E1;
    [apply is_str_true_iff in E1 as ->; left; eexists; split; [|done]; set_solver|].
  destruct (is_str a "discrete") eqn:E2;
    [apply is_str_true_iff in E2 as ->; left; eexists; split; [|done]; set_solver|].
  destruct (is_str a "nominal") eqn:E3;
    [apply is_str_true_iff in E3 as ->; left; eexists; split; [|done]; set_solver|].
  destruct (is_str a "ordinal") eqn:E4;
    [apply is_str_true_iff in E4 as ->; left; eexists; split; [|done]; set_solver|].
  destruct (is_str a "binary") eqn:E5;
    [apply is_str_true_iff in E5 as ->; left; eexists; split; [|done]; set_solver|].
  destruct (is_str a "text") eqn:E6;
    [apply is_str_true_iff in E6 as ->; left; eexists; split; [|done]; set_solver|].
  destruct (is_str a "time_index") eqn:E7;
    [apply is_str_true_iff in E7 as ->; left; eexists; split; [|done]; set_solver|].
  destruct (is_str a "spatial") eqn:E8;
    [apply is_str_true_iff in E8 as ->; left; eexists; split; [|done]; set_solver|].
  by right.
Qed.

(** X1.  Whatever the analytical type and the data type are, the role
    list is non-empty, has no repetition and offers only the six known
    roles. *)
Theorem get_filtered_roles_closed (analytical_type data_type : value) :
  get_filtered_roles analytical_type data_type ≠ []
  ∧ NoDup (get_filtered_roles analytical_type data_type)
  ∧ get_filtered_roles analytical_type data_type ⊆ all_roles.
Proof.
  unfold get_filtered_roles, all_roles.
  repeat case_match; (split; [done|split; [|set_solver]]);
    repeat (apply NoDup_cons; split; [set_solver|]); apply NoDup_nil_2.
Qed.

(** The data type takes part in one place only, the last link of the chain. *)
Lemma is_field_visible_split (field_name : string) (analytical_type data_type : value) :
  is_field_visible field_name analytical_type data_type
  = is_field_visible field_name analytical_type VNone
    && negb (truthy data_type && data_type_suppresses field_name data_type).
Proof.
  unfold is_field_visible. cbn [truthy atom_truthy andb].
  repeat (lazymatch goal with
          | |- (if ?c then false else _) = _ => destruct c; [reflexivity|]
          end).
  by destruct (truthy data_type && data_type_suppresses field_name data_type).
Qed.

(** X2.  Supplying a data type can only hide a field: whatever is visible
    for a pair of types is also visible when the data type is left out. *)
Theorem data_type_only_hides (field_name : string) (analytical_type data_type : value) :
  is_field_visible field_name analytical_type data_type = true →
  is_field_visible field_name analytical_type VNone = true.
Proof.
  rewrite is_field_visible_split. by intros [? _]%andb_true_iff.
Qed.

Lemma data_type_only_hides_witness :
  is_field_visible "min_value" (VStr "nominal") VNone = true.
Proof.
  apply (data_type_only_hides "min_value" (VStr "nominal") (VStr "string")).
  reflexivity.
Defined.

Lemma str_in_false (s : string) (l : list string) : s ∉ l → str_in s l = false.
Proof. intros H. unfold str_in. by rewrite bool_decide_eq_false_2. Qed.

(** Closes [is_field_visible f a dt = true] given [f ∉ [...]], the
    fourteen names of [matrix_fields], among the hypotheses. *)
Ltac outside_matrix :=
  unfold is_field_visible, data_type_suppresses, binary_forbidden, time_index_forbidden;
  rewrite !str_in_false by set_solver;
  rewrite !bool_decide_eq_false_2 by set_solver;
  rewrite !andb_false_r; cbn [orb andb negb];
  by destruct (is_str _ "ordinal").

(** X3.  A field that the visibility chain does not mention is visible for
    every analytical type and every data type: governance, database and
    identification fields are never hidden. *)
Theorem unlisted_fields_always_visible (field_name : string)
    (analytical_type data_type : value) :
  field_name ∉ matrix_fields →
  is_field_visible field_name analytical_type data_type = true.
Proof.
  intros Hf. unfold matrix_fields in Hf. outside_matrix.
Qed.

Lemma unlisted_fields_always_visible_witness :
  is_field_visible "data_steward" (VStr "binary") (VStr "bool") = true.
Proof.
  apply (unlisted_fields_always_visible "data_steward" (VStr "binary") (VStr "bool")).
  unfold matrix_fields. intros H.
  repeat (apply elem_of_cons in H as [H|H]; [discriminate H|]).
  by apply elem_of_nil in H.
Defined.

Ltac analytical_type_cases a :=
  let s := fresh "s" in
  let Hs := fresh "Hs" in
  destruct (analytical_type_cases a)
    as [(s & Hs & ->)|(?E & ?E & ?E & ?E & ?E & ?E & ?E & ?E)];
  [unfold known_analytical_types in Hs;
   repeat (apply elem_of_cons in Hs as [->|Hs]); [..|by apply elem_of_nil in Hs]
  |].

Lemma data_type_block_unlisted (field_name : string) (data_type : value) :
  field_name ∉ ["outlier_strategy"; "outlier_threshold"; "ordinal_mapping";
                "standardization_strategy"; "min_value"; "max_value"; "regex_pattern";
                "allowed_values"; "unique"] →
  data_type_suppresses field_name data_type = false.
Proof.
  intros Hf. unfold data_type_suppresses.
  rewrite !str_in_false by set_solver. by rewrite !andb_false_r.
Qed.

Lemma is_str_unknown (a : value) (s : string) :
  is_str a s = false → a ≠ VStr s.
Proof. intros E ->. by rewrite is_str_self in E. Qed.

(** X4.  The single-purpose fields.  [infinite_value_handling] is visible
    exactly for [continuous] variables, [text_normalization] exactly for
    [text], [encoding_strategy] exactly for [nominal], [ordinal] and
    [binary]; [standardization_strategy] needs [continuous] and a data type
    other than [string], [category] and [bool]; [plot_color] and
    [formatting] are never visible. *)
Theorem single_purpose_fields (analytical_type data_type : value) :
  (is_field_visible "infinite_value_handling" analytical_type data_type = true
   ↔ analytical_type = VStr "continuous")
  ∧ (is_field_visible "text_normalization" analytical_type data_type = true
     ↔ analytical_type = VStr "text")
  ∧ (is_field_visible "encoding_strategy" analytical_type data_type = true
     ↔ analytical_type = VStr "nominal" ∨ analytical_type = VStr "ordinal"
       ∨ analytical_type = VStr "binary")
  ∧ (is_field_visible "standardization_strategy" analytical_type data_type = true
     ↔ analytical_type = VStr "continuous" ∧ data_type ≠ VStr "string"
       ∧ data_type ≠ VStr "category" ∧ data_type ≠ VStr "bool")
  ∧ is_field_visible "plot_color" analytical_type data_type = false
  ∧ is_field_visible "formatting" analytical_type data_type = false.
Proof.
  split; [|split; [|split; [|split; [|split; reflexivity]]]].
  - rewrite is_field_visible_split, data_type_block_unlisted, andb_false_r, andb_true_r
      by (intros H; repeat (apply elem_of_cons in H as [H|H]; [discriminate H|]);
          by apply elem_of_nil in H).
    analytical_type_cases analytical_type; try (by split).
    unfold is_field_visible, val_in. cbn [existsb]. rewrite E, E0, E1, E2, E3, E4, E5.
    split; [done|]. intros ->. by rewrite is_str_self in E.
  - rewrite is_field_visible_split, data_type_block_unlisted, andb_false_r, andb_true_r
      by (intros H; repeat (apply elem_of_cons in H as [H|H]; [discriminate H|]);
          by apply elem_of_nil in H).
    analytical_type_cases analytical_type; try (by split).
    unfold is_field_visible, val_in. cbn [existsb]. rewrite E, E0, E1, E2, E3, E4, E5.
    split; [done|]. intros ->. by rewrite is_str_self in E4.
  - rewrite is_field_visible_split, data_type_block_unlisted, andb_false_r, andb_true_r
      by (intros H; repeat (apply elem_of_cons in H as [H|H]; [discriminate H|]);
          by apply elem_of_nil in H).
    analytical_type_cases analytical_type;
      try (by split; [done|intros [?|[?|?]]]);
      try (by split; [intros _; auto|done]).
    unfold is_field_visible, val_in. cbn [existsb]. rewrite E, E0, E1, E2, E3, E4, E5.
    split; [done|]. intros [-> | [-> | ->]]; by rewrite is_str_self in *.
  - rewrite is_field_visible_split.
    assert (truthy data_type && data_type_suppresses "standardization_strategy" data_type
            = is_str data_type "string" || is_str data_type "category"
              || is_str data_type "bool") as ->.
    { unfold data_type_suppresses.
      destruct (is_str data_type "string") eqn:E1;
        [by apply is_str_true_iff in E1 as ->|].
      destruct (is_str data_type "category") eqn:E2;
        [by apply is_str_true_iff in E2 as ->|].
      destruct (is_str data_type "bool") eqn:E3;
        [by apply is_str_true_iff in E3 as ->|].
      by rewrite andb_false_r. }
    rewrite andb_true_iff, negb_true_iff, !orb_false_iff.
    assert (is_field_visible "standardization_strategy" analytical_type VNone = true
            ↔ analytical_type = VStr "continuous") as ->.
    { analytical_type_cases analytical_type; try (by split).
      unfold is_field_visible, val_in. cbn [existsb]. rewrite E, E0, E1, E2, E3, E4, E5.
      split; [done|]. intros ->. by rewrite is_str_self in E. }
    split.
    + intros (-> & (Hs & Hc) & Hb). by repeat split; apply is_str_unknown.
    + intros (-> & Hs & Hc & Hb). by rewrite !is_str_other.
Qed.

Lemma get_filtered_data_types_unknown (a : value) (types : list string) :
  (∀ s, s ∈ known_analytical_types → is_str a s = false) →
  get_filtered_data_types a = Ok types → types = ["object"].
Proof.
  intros Hunknown. destruct a as [[| b | n | s] | xs | d]; cbn; try congruence.
  rewrite data_type_mapping_dom; [cbn; congruence|].
  intros Hs. specialize (Hunknown s Hs). by rewrite is_str_self in Hunknown.
Qed.

Lemma category_is_nominal_or_ordinal (a : value) (types : list string) :
  get_filtered_data_types a = Ok types → "category" ∈ types →
  a = VStr "nominal" ∨ a = VStr "ordinal".
Proof.
  intros Htypes Hcat. analytical_type_cases a;
    try (by auto); try (injection Htypes as <-; set_solver).
  apply get_filtered_data_types_unknown in Htypes as ->; [set_solver|].
  intros s Hs. unfold known_analytical_types in Hs.
  repeat (apply elem_of_cons in Hs as [->|Hs]; [done|]). by apply elem_of_nil in Hs.
Qed.

(** X5.  On a coherent pair of types, one whose data type is among those
    [get_filtered_data_types] allows for the analytical type, every field
    that [get_field_requirement] marks as mandatory is a field that
    [is_field_visible] shows. *)
Theorem required_fields_are_visible (field_name : string)
    (analytical_type data_type : value) (types : list string) :
  get_filtered_data_types analytical_type = Ok types →
  (∃ s, data_type = VStr s ∧ s ∈ types) →
  get_field_requirement field_name analytical_type data_type = true →
  is_field_visible field_name analytical_type data_type = true.
Proof.
  intros Htypes (s & -> & Hs). unfold get_field_requirement.
  destruct (bool_decide (field_name = "allowed_values") && is_str (VStr s) "category") eqn:E1.
  { intros _. apply andb_true_iff in E1 as [->%bool_decide_eq_true Hc].
    apply is_str_true_iff in Hc as [= ->].
    by destruct (category_is_nominal_or_ordinal _ _ Htypes Hs) as [-> | ->]. }
  destruct (bool_decide (field_name = "ordinal_mapping") && is_str analytical_type "ordinal")
    eqn:E2.
  { intros _. apply andb_true_iff in E2 as [->%bool_decide_eq_true ->%is_str_true_iff].
    injection Htypes as <-. apply list_elem_of_singleton in Hs as ->. reflexivity. }
  destruct (str_in field_name ["unique"; "nullable"] && is_str analytical_type "nominal"
            && is_str (VStr s) "string") eqn:E3.
  { intros _. apply andb_true_iff in E3 as [[Hf Ha]%andb_true_iff Hd].
    apply is_str_true_iff in Ha as ->. apply is_str_true_iff in Hd as [= ->].
    apply bool_decide_eq_true in Hf.
    repeat (apply elem_of_cons in Hf as [->|Hf]; [reflexivity|]).
    by apply elem_of_nil in Hf. }
  destruct (str_in field_name ["data_steward"; "sensitivity"]) eqn:E4; [|done].
  intros _. apply bool_decide_eq_true in E4.
  assert (field_name ∉ matrix_fields) as Hf.
  { intros Hm. unfold matrix_fields in Hm.
    repeat (apply elem_of_cons in E4 as [->|E4];
            [repeat (apply elem_of_cons in Hm as [Hm|Hm]; [discriminate Hm|]);
             by apply elem_of_nil in Hm|]).
    by apply elem_of_nil in E4. }
  unfold matrix_fields in Hf. outside_matrix.
Qed.

Lemma required_fields_are_visible_witness :
  is_field_visible "ordinal_mapping" (VStr "ordinal") (VStr "category") = true.
Proof.
  apply (required_fields_are_visible "ordinal_mapping" (VStr "ordinal") (VStr "category")
           ["category"]).
  - reflexivity.
  - exists "category". split; [reflexivity|]. apply elem_of_cons. left. reflexivity.
  - reflexivity.
Defined.

(* ===================================================================== *)
(** * The heuristics of coherence.py *)
(* ===================================================================== *)

(** X6.  Whatever name it is given, [guess_metadata_from_name] answers with
    exactly the three type keys, and the triple is coherent: the data type
    is one of those the taxonomy allows for the analytical type, and the
    role is one of those offered for the pair. *)
Theorem guess_metadata_is_coherent (str_of_object : value → string) (variable_name : value) :
  ∃ analytical_type data_type role types,
    guess_metadata_from_name str_of_object variable_name
      = type_guess analytical_type data_type role ∧
    get_filtered_data_types (VStr analytical_type) = Ok types ∧
    data_type ∈ types ∧
    role ∈ get_filtered_roles (VStr analytical_type) (VStr data_type).
Proof.
  unfold guess_metadata_from_name.
  set (name_lower := lower _).
  destruct (_ || _).
  { exists "discrete", "int64", "id"; eexists.
    split; [vm_cast_no_check (eq_refl (type_guess "discrete" "int64" "id"))|].
    split; [reflexivity|]. split; [set_solver|]. vm_compute. set_solver. }
  destruct (existsb _ _).
  { exists "time_index", "datetime64", "time_index"; eexists.
    split; [vm_cast_no_check (eq_refl (type_guess "time_index" "datetime64" "time_index"))|].
    split; [reflexivity|]. split; [set_solver|]. vm_compute. set_solver. }
  destruct (existsb _ _).
  { exists "binary", "bool", "feature"; eexists.
    split; [vm_cast_no_check (eq_refl (type_guess "binary" "bool" "feature"))|].
    split; [reflexivity|]. split; [set_solver|]. vm_compute. set_solver. }
  destruct (existsb _ _).
  { exists "text", "string", "metadata"; eexists.
    split; [vm_cast_no_check (eq_refl (type_guess "text" "string" "metadata"))|].
    split; [reflexivity|]. split; [set_solver|]. vm_compute. set_solver. }
  destruct (existsb _ _).
  { exists "nominal", "category", "feature"; eexists.
    split; [vm_cast_no_check (eq_refl (type_guess "nominal" "category" "feature"))|].
    split; [reflexivity|]. split; [set_solver|]. vm_compute. set_solver. }
  exists "continuous", "float64", "feature"; eexists.
  split; [reflexivity|].
  split; [reflexivity|]. split; [set_solver|]. vm_compute. set_solver.
Qed.

Lemma two_distinct {A} `{EqDecision A} (l : list A) :
  (2 ≤ length (remove_dups l))%nat ↔ ∃ a b, a ∈ l ∧ b ∈ l ∧ a ≠ b.
Proof.
  pose proof (NoDup_remove_dups l) as Hnd.
  split.
  - destruct (remove_dups l) as [|a [|b r]] eqn:E; simpl; try lia. intros _.
    exists a, b. rewrite <- !(elem_of_remove_dups l), E.
    split; [set_solver|]. split; [set_solver|].
    apply NoDup_cons in Hnd as [Hnd _]. set_solver.
  - intros (a & b & Ha & Hb & Hab).
    rewrite <- (elem_of_remove_dups l) in Ha, Hb.
    destruct (remove_dups l) as [|x [|y r]]; simpl; [set_solver|set_solver|lia].
Qed.

Lemma stripped_labels_strings (labels : list string) :
  stripped_labels ((λ s, VStr s) <$> labels)
    = Ok (filter (λ s, s ≠ "") (strip <$> labels)).
Proof.
  induction labels as [|s labels IH]; [reflexivity|].
  cbn [fmap list_fmap stripped_labels]. fold (fmap (M:=list) (λ s, VStr s) labels).
  rewrite IH. cbn [mbind result_bind]. rewrite filter_cons.
  case_bool_decide; case_decide; congruence.
Qed.

(** *** White space at the ends of a string *)

Lemma is_space_decide (c : Ascii.ascii) : is_space c = bool_decide (white_space c).
Proof. by destruct c as [[] [] [] [] [] [] [] []]; vm_compute. Qed.

Lemma is_space_white (c : Ascii.ascii) : white_space c → is_space c = true.
Proof. intros H. rewrite is_space_decide. by apply bool_decide_eq_true_2. Qed.

Lemma is_space_not_white (c : Ascii.ascii) : ¬ white_space c → is_space c = false.
Proof. intros H. rewrite is_space_decide. by apply bool_decide_eq_false_2. Qed.

Lemma string_last (c : Ascii.ascii) (t : string) :
  ∃ t' c', String c t = t' +:+ String c' EmptyString.
Proof.
  revert c. induction t as [|d t IH]; intros c.
  - by exists EmptyString, c.
  - destruct (IH d) as (t' & c' & ->). by exists (String c t'), c'.
Qed.

Lemma append_cons (c : Ascii.ascii) (l u : string) :
  String c l +:+ u = String c (l +:+ u).
Proof. reflexivity. Qed.

Lemma append_empty (u : string) : EmptyString +:+ u = u.
Proof. reflexivity. Qed.

Lemma lstrip_app_white (l u : string) : all_white l → lstrip (l +:+ u) = lstrip u.
Proof.
  induction l as [|c l IH]; [done|]. intros [Hc Hl]. rewrite append_cons. cbn [lstrip].
  rewrite (is_space_white c Hc). by apply IH.
Qed.

Lemma lstrip_all_white (r : string) : all_white r → lstrip r = EmptyString.
Proof.
  induction r as [|c r IH]; [done|]. intros [Hc Hr]. cbn [lstrip].
  by rewrite (is_space_white c Hc), (IH Hr).
Qed.

Lemma rstrip_all_white (r : string) : all_white r → rstrip r = EmptyString.
Proof.
  induction r as [|c r IH]; [done|]. intros [Hc Hr]. cbn [rstrip].
  by rewrite (IH Hr), (is_space_white c Hc).
Qed.

Lemma rstrip_app_white (t r : string) : all_white r → rstrip (t +:+ r) = rstrip t.
Proof.
  intros Hr. induction t as [|c t IH].
  - rewrite append_empty. by apply rstrip_all_white.
  - rewrite append_cons. cbn [rstrip]. by rewrite IH.
Qed.

Lemma rstrip_ends_black (t' : string) (c : Ascii.ascii) :
  ¬ white_space c →
  rstrip (t' +:+ String c EmptyString) = t' +:+ String c EmptyString.
Proof.
  intros Hc. induction t' as [|d t' IH].
  - rewrite append_empty. cbn [rstrip]. by rewrite (is_space_not_white c Hc).
  - rewrite append_cons. cbn [rstrip]. rewrite IH.
    destruct t'; [by rewrite append_empty|by rewrite append_cons].
Qed.

Lemma lstrip_split (s : string) :
  ∃ l, s = l +:+ lstrip s ∧ all_white l ∧ ∀ c t', lstrip s = String c t' → ¬ white_space c.
Proof.
  induction s as [|c s (l & Hs & Hl & Hb)].
  { by exists EmptyString. }
  cbn [lstrip]. destruct (is_space c) eqn:E.
  - exists (String c l). rewrite append_cons. split; [by rewrite <- Hs|].
    split; [|done].
    split; [|done]. rewrite is_space_decide in E. by apply bool_decide_eq_true in E.
  - exists EmptyString. split; [done|]. split; [done|].
    intros c' t' [= <- _]. rewrite is_space_decide in E. by apply bool_decide_eq_false in E.
Qed.

Lemma rstrip_split (u : string) :
  ∃ r, u = rstrip u +:+ r ∧ all_white r
    ∧ ∀ t' c, rstrip u = t' +:+ String c EmptyString → ¬ white_space c.
Proof.
  induction u as [|c u (r & Hu & Hr & He)].
  { exists EmptyString. split; [done|]. split; [done|]. by intros [|??] ?. }
  cbn [rstrip]. destruct (rstrip u) as [|d w] eqn:Eu.
  - rewrite append_empty in Hu. subst u. destruct (is_space c) eqn:E.
    + exists (String c r). split; [done|]. split; [|by intros [|??] ?].
      split; [|done]. rewrite is_space_decide in E. by apply bool_decide_eq_true in E.
    + exists r. split; [done|]. split; [done|].
      intros [|c0 t''] c' Heq.
      * rewrite append_empty in Heq. injection Heq as <-.
        rewrite is_space_decide in E. by apply bool_decide_eq_false in E.
      * rewrite append_cons in Heq. injection Heq as _ Heq. by destruct t''.
  - exists r. split; [by rewrite Hu at 1|]. split; [done|].
    intros [|c0 t''] c' Heq.
    + rewrite append_empty in Heq. discriminate.
    + rewrite append_cons in Heq. injection Heq as _ Heq. by apply (He t'' c').
Qed.

Lemma stripped_form_strip (s : string) : stripped_form s (strip s).
Proof.
  unfold strip. destruct (lstrip_split s) as (l & Hs & Hl & Hb).
  destruct (rstrip_split (lstrip s)) as (r & Hu & Hr & He).
  exists l, r. split; [by rewrite <- Hu|]. split; [done|]. split; [done|].
  split; [|done]. intros c t' Ht. rewrite Ht, append_cons in Hu. by eapply Hb.
Qed.

Lemma stripped_form_unique (s t : string) : stripped_form s t → strip s = t.
Proof.
  intros (l & r & -> & Hl & Hr & Hb & He). unfold strip.
  rewrite (lstrip_app_white l _ Hl).
  destruct t as [|c t].
  - rewrite append_empty, (lstrip_all_white r Hr). done.
  - rewrite append_cons. cbn [lstrip]. rewrite (is_space_not_white c (Hb c t eq_refl)).
    rewrite <- append_cons.
    rewrite (rstrip_app_white _ r Hr).
    destruct (string_last c t) as (t' & c' & Ht). rewrite Ht.
    apply rstrip_ends_black. by apply (He t' c').
Qed.

Lemma strip_no_break_space :
  strip (String (Ascii.ascii_of_N 160) "A" +:+ String (Ascii.ascii_of_N 9) " ") = "A".
Proof. reflexivity. Qed.

(** X7.  On a list of strings [validate_categorical_entropy] never raises,
    and it accepts the list exactly when two of its labels, once the white
    space at their two ends is taken off, are non-empty and different; it
    accepts with an empty message and rejects with a non-empty one. *)
Theorem validate_categorical_entropy_spec (labels : list string) :
  ∃ ok message,
    validate_categorical_entropy (VList ((λ s, VStr s) <$> labels)) = Ok (ok, message) ∧
    (ok = true ↔ ∃ a b ta tb, a ∈ labels ∧ b ∈ labels ∧
                   stripped_form a ta ∧ stripped_form b tb ∧
                   ta ≠ "" ∧ tb ≠ "" ∧ ta ≠ tb) ∧
    (ok = true ↔ message = "").
Proof.
  assert ((∃ a b ta tb, a ∈ labels ∧ b ∈ labels ∧
             stripped_form a ta ∧ stripped_form b tb ∧ ta ≠ "" ∧ tb ≠ "" ∧ ta ≠ tb)
          ↔ (2 ≤ length (remove_dups (filter (λ s, s ≠ "") (strip <$> labels))))%nat)
    as Hiff.
  { rewrite two_distinct. split.
    - intros (a & b & ta & tb & Ha & Hb & <-%stripped_form_unique
              & <-%stripped_form_unique & Hsa & Hsb & Hab).
      exists (strip a), (strip b).
      rewrite !list_elem_of_filter, !list_elem_of_fmap. naive_solver.
    - intros (x & y & Hx & Hy & Hxy).
      apply list_elem_of_filter in Hx as [Hx1 Hx2]. apply list_elem_of_filter in Hy as [Hy1 Hy2].
      apply list_elem_of_fmap in Hx2 as (a & -> & Ha).
      apply list_elem_of_fmap in Hy2 as (b & -> & Hb).
      exists a, b, (strip a), (strip b).
      split; [done|]. split; [done|].
      split; [apply stripped_form_strip|]. split; [apply stripped_form_strip|done]. }
  unfold validate_categorical_entropy.
  destruct (truthy _) eqn:Ht; cbn [negb].
  2:{ destruct labels; [|discriminate].
      eexists _, _. split; [reflexivity|]. rewrite Hiff. simpl.
      split; split; (discriminate || lia). }
  cbn [py_iter mbind result_bind].
  rewrite stripped_labels_strings. cbn [mbind result_bind].
  case_bool_decide.
  - eexists _, _. split; [reflexivity|]. rewrite Hiff.
    split; split; (discriminate || lia).
  - eexists _, _. split; [reflexivity|]. rewrite Hiff.
    split; split; (reflexivity || lia).
Qed.

(** X8.  The labels of the two bounds always come as a pair of the same
    kind: numeric bounds, character lengths, dates, or, for every other
    analytical type, the plain title-cased field names. *)
Theorem bound_labels_pair_up (analytical_type : value) :
  (get_dynamic_label "min_value" analytical_type,
   get_dynamic_label "max_value" analytical_type)
    ∈ [ ("Lower Numeric Bound", "Upper Numeric Bound");
        ("Minimum Character Length", "Maximum Character Length");
        ("Start Date", "End Date");
        ("Min Value", "Max Value") ].
Proof.
  analytical_type_cases analytical_type;
    try (vm_compute; set_solver).
  unfold get_dynamic_label, val_in; cbn [existsb].
  rewrite E, E0, E1, E2, E4, E5, E6. vm_compute. set_solver.
Qed.

(* ===================================================================== *)
(** * Further properties of the form handlers *)
(* ===================================================================== *)

(** X9.  A submission is all or nothing, whatever the types and the
    session are.  Unless it returns [True] (it may return [False] or
    raise) the session is exactly as it was.  When it returns [True] the
    candidate has a name, edit mode is left, the hydration flag is reset,
    and the Ledger has changed in one place only: outside edit mode the
    candidate was appended, in edit mode it replaced the entry at the
    position the editing index denotes and the Ledger kept its length. *)
Theorem process_form_submission_all_or_nothing (literal_eval : string → option value)
    (v_inputs : gmap string value) (current_at current_dt : value)
    (s : session (gmap string value)) :
  let r := process_form_submission literal_eval v_inputs current_at current_dt s in
  (r.1 ≠ Ok true → r.2 = s)
  ∧ (r.1 = Ok true →
     truthy (default VNone (v_inputs !! "name")) = true
     ∧ editing_index r.2 = None
     ∧ cat_rows_hydrated r.2 = false
     ∧ match editing_index s with
       | None => variables r.2 = (variables s ++ [v_inputs])%list
       | Some i =>
           ∃ n, py_index (variables s) i = Some n
                ∧ variables r.2 = <[n := v_inputs]> (variables s)
                ∧ variables r.2 !! n = Some v_inputs
                ∧ length (variables r.2) = length (variables s)
       end).
Proof.
  unfold process_form_submission.
  destruct (truthy _) eqn:Hname; cbn [negb]; [|by split].
  destruct (logic_validation _ _ _ _) as [[|]|e]; [|by split|by split].
  unfold commit, py_setitem.
  destruct (editing_index s) as [i|] eqn:Hi; [|by split].
  destruct (py_index (variables s) i) as [n|] eqn:Hn; cbn; [|by split].
  split; [done|]. intros _. split; [done|]. split; [done|]. split; [done|].
  exists n. split; [done|]. split; [done|].
  split; [|by rewrite length_insert].
  apply list_lookup_insert_eq.
  unfold py_index in Hn. repeat case_bool_decide; simplify_eq; lia.
Qed.

(** X10.  Deleting a Ledger entry keeps edit mode on the variable that was
    being edited: if another entry is deleted the editing index is moved
    so that it denotes the same entry as before and the hydration flag is
    kept; if the edited entry itself is deleted, edit mode is left and the
    flag is reset. *)
Theorem delete_variable_keeps_edit_target {A} (index e : Z) (s : session A) :
  (0 ≤ index < Z.of_nat (length (variables s)))%Z →
  editing_index s = Some e →
  (0 ≤ e)%Z →
  ∃ s', delete_variable index s = Ok s'
    ∧ (e = index → editing_index s' = None ∧ cat_rows_hydrated s' = false)
    ∧ (e ≠ index →
       ∃ e', editing_index s' = Some e' ∧ (0 ≤ e')%Z
         ∧ variables s' !! Z.to_nat e' = variables s !! Z.to_nat e
         ∧ cat_rows_hydrated s' = cat_rows_hydrated s).
Proof.
  intros Hidx He H0. unfold delete_variable.
  rewrite bool_decide_eq_true_2 by done.
  unfold py_pop. rewrite py_index_in_range by done. cbn. rewrite He.
  case_bool_decide as H1.
  { eexists. split; [done|]. split; [done|]. by intros ?. }
  case_bool_decide as H2.
  - eexists. split; [done|]. split; [by intros ?|]. intros _.
    exists (e - 1)%Z. cbn. split; [done|]. split; [lia|]. split; [|done].
    rewrite list_lookup_delete_ge by lia. f_equal. lia.
  - eexists. split; [done|]. split; [by intros ?|]. intros _.
    exists e. cbn. split; [done|]. split; [lia|]. split; [|done].
    rewrite list_lookup_delete_lt by lia. done.
Qed.

Lemma delete_variable_keeps_edit_target_witness :
  ∃ s', delete_variable 0 (Session ["a"; "b"; "c"] (Some 2%Z) true) = Ok s'
    ∧ ∃ e', editing_index s' = Some e' ∧ variables s' !! Z.to_nat e' = Some "c".
Proof.
  destruct (delete_variable_keeps_edit_target 0 2 (Session ["a"; "b"; "c"] (Some 2%Z) true))
    as (s' & Hs' & _ & H); [simpl; lia|reflexivity|lia|].
  destruct H as (e' & He' & _ & Hl & _); [lia|].
  exists s'. split; [exact Hs'|]. exists e'. split; [exact He'|]. exact Hl.
Defined.

Lemma remove_dups_length_le {A} `{EqDecision A} (l : list A) :
  (length (remove_dups l) ≤ length l)%nat.
Proof.
  induction l as [|x l IH]; [done|]. cbn. case_decide; cbn; lia.
Qed.

Lemma remove_dups_length_NoDup {A} `{EqDecision A} (l : list A) :
  length l = length (remove_dups l) ↔ NoDup l.
Proof.
  induction l as [|x l IH]; [split; [constructor|done]|].
  cbn. pose proof (remove_dups_length_le l). rewrite NoDup_cons.
  case_decide as Hx; cbn.
  - split; [lia|]. by intros [? _].
  - split.
    + intros Hl. split; [done|]. apply IH. lia.
    + intros [_ Hnd]. apply IH in Hnd. lia.
Qed.

Lemma NoDup_values {K V B} (f : V → B) (l : list (K * V)) :
  NoDup l.*1 →
  NoDup (f <$> l.*2)
  ↔ ∀ k1 k2 v1 v2, (k1, v1) ∈ l → (k2, v2) ∈ l → f v1 = f v2 → k1 = k2.
Proof.
  induction l as [|[k v] l IH]; cbn [fmap list_fmap fst snd].
  { intros _. split; [intros _ ????; by intros ?%elem_of_nil|constructor]. }
  fold (fmap (M:=list) (@fst K V) l). fold (fmap (M:=list) (@snd K V) l).
  fold (fmap (M:=list) f (l.*2)).
  rewrite !NoDup_cons. intros [Hk Hnd]. specialize (IH Hnd). split.
  - intros [Hv Hvs] k1 k2 v1 v2 H1 H2 Hf.
    apply elem_of_cons in H1 as [[= -> ->]|H1]; apply elem_of_cons in H2 as [[= -> ->]|H2].
    + done.
    + exfalso. apply Hv. rewrite Hf. apply list_elem_of_fmap. exists v2.
      split; [done|]. apply list_elem_of_fmap. by exists (k2, v2).
    + exfalso. apply Hv. rewrite <- Hf. apply list_elem_of_fmap. exists v1.
      split; [done|]. apply list_elem_of_fmap. by exists (k1, v1).
    + by apply (proj1 IH Hvs k1 k2 v1 v2).
  - intros Hu. split.
    + intros (v' & Hf & ([k' v''] & -> & Hin)%list_elem_of_fmap)%list_elem_of_fmap.
      apply Hk. apply list_elem_of_fmap. exists (k', v''). split; [|done]. cbn.
      apply (Hu k k' v v''); [set_solver|set_solver|done].
    + apply IH. intros k1 k2 v1 v2 H1 H2. apply Hu; set_solver.
Qed.

Lemma hash_keys_atoms (l : list value) :
  Forall (λ v, ∃ a, v = VAtom a) l →
  hash_keys l
  = Ok ((λ v, match v with VAtom a => hash_key a | _ => ANone end) <$> l).
Proof.
  induction 1 as [|v l [a ->] _ IH]; [done|].
  cbn [hash_keys]. rewrite IH. done.
Qed.

(** X11.  For a category variable declared ordinal whose rank table holds
    scalars, the rank check passes exactly when no two labels share a
    rank, [True] counting as [1] and [False] as [0] as in a Python set. *)
Theorem ordinal_ranks_must_be_unique (literal_eval : string → option value)
    (c m : gmap string value) :
  c !! "ordinal_mapping" = Some (VDict m) →
  map_Forall (λ _ v, ∃ a, v = VAtom a) m →
  ∃ ok, ordinal_rank_check literal_eval (VDict c) (VStr "ordinal") (VStr "category") = Ok ok
    ∧ (ok = true ↔
       ∀ label1 label2 rank1 rank2,
         m !! label1 = Some (VAtom rank1) → m !! label2 = Some (VAtom rank2) →
         hash_key rank1 = hash_key rank2 → label1 = label2).
Proof.
  intros Hc Hm. unfold ordinal_rank_check, py_get, len_set.
  rewrite is_str_self, Hc. cbn [default mbind result_bind].
  rewrite is_str_self.
  assert (Forall (λ v, ∃ a, v = VAtom a) (map_to_list m).*2) as Hall.
  { apply Forall_forall. intros v ([k v'] & -> & Hin)%list_elem_of_fmap.
    apply elem_of_map_to_list in Hin. by apply (Hm k). }
  cbn [id]. rewrite (hash_keys_atoms _ Hall). cbn [mbind result_bind].
  eexists. split; [done|].
  rewrite bool_decide_eq_true.
  set (f := λ v, match v with VAtom a => hash_key a | _ => ANone end).
  rewrite <- (length_fmap f) at 1.
  rewrite remove_dups_length_NoDup.
  rewrite (NoDup_values f) by apply NoDup_fst_map_to_list.
  split.
  - intros Hu k1 k2 a1 a2 H1 H2 Hh.
    apply (Hu k1 k2 (VAtom a1) (VAtom a2)); [by apply elem_of_map_to_list..|done].
  - intros Hu k1 k2 v1 v2 H1%elem_of_map_to_list H2%elem_of_map_to_list Hf.
    destruct (Hm _ _ H1) as [a1 ->]. destruct (Hm _ _ H2) as [a2 ->].
    by apply (Hu k1 k2 a1 a2).
Qed.

Lemma ordinal_ranks_must_be_unique_witness :
  ∃ ok,
    ordinal_rank_check (λ _, None)
      (VDict (<["ordinal_mapping" := VDict (<["low" := VInt 1]> (<["high" := VBool true]> ∅))]> ∅))
      (VStr "ordinal") (VStr "category") = Ok ok
    ∧ (ok = true ↔
       ∀ label1 label2 rank1 rank2,
         (<["low" := VInt 1]> (<["high" := VBool true]> ∅) : gmap string value) !! label1
           = Some (VAtom rank1) →
         (<["low" := VInt 1]> (<["high" := VBool true]> ∅) : gmap string value) !! label2
           = Some (VAtom rank2) →
         hash_key rank1 = hash_key rank2 → label1 = label2).
Proof.
  apply (ordinal_ranks_must_be_unique (λ _, None)
           (<["ordinal_mapping" := VDict (<["low" := VInt 1]> (<["high" := VBool true]> ∅))]> ∅)
           (<["low" := VInt 1]> (<["high" := VBool true]> ∅))).
  - reflexivity.
  - intros k v Hk.
    destruct (decide (k = "low")) as [->|Hlow].
    { rewrite lookup_insert_eq in Hk. injection Hk as <-. eexists. reflexivity. }
    rewrite lookup_insert_ne in Hk by (intros Heq; apply Hlow; symmetry; exact Heq).
    destruct (decide (k = "high")) as [->|Hhigh].
    { rewrite lookup_insert_eq in Hk. injection Hk as <-. eexists. reflexivity. }
    rewrite lookup_insert_ne in Hk by (intros Heq; apply Hhigh; symmetry; exact Heq).
    rewrite lookup_empty in Hk. discriminate.
Defined.

(** ** Hydration of the categorical rows *)

Lemma hydrate_rows_length (mapping : gmap string value) (allowed : list value)
    (rows : list CatRows.row) :
  CatRows.hydrate_rows mapping allowed = Ok rows → length rows = length allowed.
Proof.
  revert rows. induction allowed as [|val allowed IH]; intros rows; cbn.
  { by intros [= <-]. }
  destruct (CatRows.rank_of mapping val) as [r|e]; cbn; [|done].
  destruct (CatRows.hydrate_rows mapping allowed) as [rows'|e]; cbn; [|done].
  intros [= <-]. cbn. f_equal. by apply IH.
Qed.

Lemma hydrate_rows_strings (mapping : gmap string value) (labels : list string) :
  CatRows.hydrate_rows mapping ((λ s, VStr s) <$> labels)
  = Ok ((λ s, CatRows.Row (VStr s) (default (VInt 0) (mapping !! s))) <$> labels).
Proof.
  induction labels as [|s labels IH]; [done|].
  cbn [fmap list_fmap CatRows.hydrate_rows CatRows.rank_of mbind result_bind].
  fold (fmap (M:=list) (λ s, VStr s) labels). rewrite IH. done.
Qed.

(** X12.  [initialize_categorical_rows] is idempotent: a second call with
    the same argument on the session the first call left behind changes
    nothing, so the rows a user is editing survive the reruns of the
    page. *)
Theorem initialize_categorical_rows_idempotent (literal_eval : string → option value)
    (edit_data : value) (st st' : CatRows.form_state) :
  CatRows.initialize_categorical_rows literal_eval edit_data st = Ok st' →
  CatRows.initialize_categorical_rows literal_eval edit_data st' = Ok st'.
Proof.
  unfold CatRows.initialize_categorical_rows.
  destruct st as [fi lf h rows]. cbn [CatRows.form_id CatRows.last_form_id
    CatRows.cat_rows_hydrated CatRows.cat_rows].
  set (fid := default 0%Z fi).
  assert (bool_decide (Some fid = Some fid) = true) as Hfid
    by by apply bool_decide_eq_true_2.
  destruct (truthy edit_data).
  - destruct (py_get edit_data "data_type" VNone) as [data_type|e];
      cbn [mbind result_bind]; [|done].
    destruct (is_str data_type "category") eqn:Hcat; cbn [andb].
    + destruct (negb (bool_decide (lf = Some fid)) || negb (default false h)) eqn:Hc.
      * intros Hst. do 4 inv_bind Hst. injection Hst as <-.
        cbn [CatRows.form_id CatRows.last_form_id CatRows.cat_rows_hydrated
             CatRows.cat_rows]. fold fid. rewrite Hfid. done.
      * apply orb_false_iff in Hc as [Hc1 Hc2]. rewrite Hc2, andb_false_r.
        intros [= <-].
        cbn [CatRows.form_id CatRows.last_form_id CatRows.cat_rows_hydrated
             CatRows.cat_rows]. fold fid. rewrite Hc1, Hc2, ?andb_false_r. done.
    + destruct ((match rows with None => true | Some _ => false end
                 || negb (bool_decide (lf = Some fid))) && negb (default false h)) eqn:Hc.
      * intros [= <-].
        cbn [CatRows.form_id CatRows.last_form_id CatRows.cat_rows_hydrated
             CatRows.cat_rows]. fold fid. rewrite Hfid. done.
      * intros [= <-].
        cbn [CatRows.form_id CatRows.last_form_id CatRows.cat_rows_hydrated
             CatRows.cat_rows]. fold fid. rewrite Hc. done.
  - destruct ((match rows with None => true | Some _ => false end
               || negb (bool_decide (lf = Some fid))) && negb (default false h)) eqn:Hc.
    + intros [= <-].
      cbn [CatRows.form_id CatRows.last_form_id CatRows.cat_rows_hydrated
           CatRows.cat_rows]. fold fid. rewrite Hfid. done.
    + intros [= <-].
      cbn [CatRows.form_id CatRows.last_form_id CatRows.cat_rows_hydrated
           CatRows.cat_rows]. fold fid. rewrite Hc. done.
Qed.

Lemma initialize_categorical_rows_idempotent_witness :
  CatRows.initialize_categorical_rows (λ _, None) VNone
    (CatRows.FormState None (Some 0%Z) None (Some [CatRows.empty_row]))
  = Ok (CatRows.FormState None (Some 0%Z) None (Some [CatRows.empty_row])).
Proof.
  apply (initialize_categorical_rows_idempotent (λ _, None) VNone
           (CatRows.FormState None None None None)).
  reflexivity.
Defined.

(** X13.  The categorical editor is never left without a row: a call that
    returns leaves the rows as they were or writes a list that is not
    empty, so rows that were not an empty list are not one afterwards. *)
Theorem cat_rows_never_empty (literal_eval : string → option value)
    (edit_data : value) (st st' : CatRows.form_state) :
  CatRows.initialize_categorical_rows literal_eval edit_data st = Ok st' →
  CatRows.cat_rows st ≠ Some [] →
  CatRows.cat_rows st' ≠ Some [].
Proof.
  unfold CatRows.initialize_categorical_rows. intros Hst Hrows.
  assert (CatRows.cat_rows
            (if (match CatRows.cat_rows st with None => true | Some _ => false end
                 || negb (bool_decide (CatRows.last_form_id st
                                       = Some (default 0%Z (CatRows.form_id st)))))
                && negb (default false (CatRows.cat_rows_hydrated st))
             then CatRows.FormState (CatRows.form_id st)
                    (Some (default 0%Z (CatRows.form_id st)))
                    (CatRows.cat_rows_hydrated st) (Some [CatRows.empty_row])
             else st) ≠ Some []) as Hreset.
  { by destruct (_ && _). }
  destruct (truthy edit_data); [|by injection Hst as <-].
  inv_bind Hst.
  destruct (is_str x "category" && _); [|by injection Hst as <-].
  do 4 inv_bind Hst. injection Hst as <-. cbn.
  by destruct x3.
Qed.

Lemma cat_rows_never_empty_witness :
  CatRows.cat_rows (CatRows.FormState None (Some 0%Z) None (Some [CatRows.empty_row]))
    ≠ Some [].
Proof.
  apply (cat_rows_never_empty (λ _, None) VNone
           (CatRows.FormState None None None None)
           (CatRows.FormState None (Some 0%Z) None (Some [CatRows.empty_row]))).
  - reflexivity.
  - discriminate.
Defined.

(** X14.  Hydration mirrors the template.  For a category template whose
    allowed values are a non-empty list of strings and whose rank table is
    a dict, a session that is due for hydration (the form version changed,
    or the flag is not set) gets one row per allowed value, in the
    template's order, each with the rank the table gives its label and [0]
    where it gives none; the flag is set and the form version recorded. *)
Theorem hydration_mirrors_template (literal_eval : string → option value)
    (edit_data constraints mapping : gmap string value) (labels : list string)
    (st : CatRows.form_state) :
  edit_data !! "data_type" = Some (VStr "category") →
  edit_data !! "constraints" = Some (VDict constraints) →
  constraints !! "allowed_values" = Some (VList ((λ s, VStr s) <$> labels)) →
  constraints !! "ordinal_mapping" = Some (VDict mapping) →
  labels ≠ [] →
  CatRows.last_form_id st ≠ Some (default 0%Z (CatRows.form_id st))
    ∨ CatRows.cat_rows_hydrated st ≠ Some true →
  CatRows.initialize_categorical_rows literal_eval (VDict edit_data) st
  = Ok (CatRows.FormState (CatRows.form_id st)
          (Some (default 0%Z (CatRows.form_id st)))
          (Some true)
          (Some ((λ s, CatRows.Row (VStr s) (default (VInt 0) (mapping !! s))) <$> labels))).
Proof.
  intros Hdt Hc Ha Hm Hne Hdue. unfold CatRows.initialize_categorical_rows, py_get.
  assert (truthy (VDict edit_data) = true) as ->.
  { cbn. apply negb_true_iff, bool_decide_eq_false_2. intros ->.
    by rewrite lookup_empty in Hdt. }
  rewrite Hdt. cbn [default from_option id mbind result_bind].
  rewrite is_str_self. cbn [andb].
  assert (negb (bool_decide (CatRows.last_form_id st
                             = Some (default 0%Z (CatRows.form_id st))))
          || negb (default false (CatRows.cat_rows_hydrated st)) = true) as ->.
  { apply orb_true_iff. destruct Hdue as [H|H].
    - left. by apply negb_true_iff, bool_decide_eq_false_2.
    - right. by destruct (CatRows.cat_rows_hydrated st) as [[|]|]. }
  rewrite Hc. cbn [default from_option id mbind result_bind].
  rewrite Ha, Hm. cbn [default from_option id mbind result_bind].
  rewrite hydrate_rows_strings. cbn [mbind result_bind].
  destruct labels; [done|]. done.
Qed.

Lemma hydration_mirrors_template_witness :
  ∃ st',
    CatRows.initialize_categorical_rows (λ _, None)
      (VDict (<["data_type" := VStr "category"]>
               (<["constraints" :=
                    VDict (<["allowed_values" := VList [VStr "low"; VStr "high"]]>
                             (<["ordinal_mapping" := VDict (<["high" := VInt 2]> ∅)]> ∅))]> ∅)))
      (CatRows.FormState (Some 3%Z) None None None) = Ok st'
    ∧ CatRows.cat_rows st'
      = Some [CatRows.Row (VStr "low") (VInt 0); CatRows.Row (VStr "high") (VInt 2)].
Proof.
  eexists. split.
  - apply (hydration_mirrors_template (λ _, None)
             (<["data_type" := VStr "category"]>
               (<["constraints" :=
                    VDict (<["allowed_values" := VList [VStr "low"; VStr "high"]]>
                             (<["ordinal_mapping" := VDict (<["high" := VInt 2]> ∅)]> ∅))]> ∅))
             (<["allowed_values" := VList [VStr "low"; VStr "high"]]>
                (<["ordinal_mapping" := VDict (<["high" := VInt 2]> ∅)]> ∅))
             (<["high" := VInt 2]> ∅)
             ["low"; "high"]
             (CatRows.FormState (Some 3%Z) None None None)).
    + reflexivity.
    + reflexivity.
    + reflexivity.
    + reflexivity.
    + discriminate.
    + left. discriminate.
  - reflexivity.
Defined.

(* ===================================================================== *)
(** * Further properties of the template hub *)
(* ===================================================================== *)

Lemma lower_char_idemp (c : Ascii.ascii) : lower_char (lower_char c) = lower_char c.
Proof. by destruct c as [[] [] [] [] [] [] [] []]. Qed.

Lemma lower_idemp (s : string) : lower (lower s) = lower s.
Proof. induction s as [|c s IH]; [done|]. cbn. by rewrite lower_char_idemp, IH. Qed.

(** A sanitized term is a fixed point of its table. *)
Lemma vocabulary_fixed_point (table : gmap string string) (s : string) :
  table ∈ vocabulary_tables →
  let r := default (lower s) (table !! lower s) in
  default (lower r) (table !! lower r) = r.
Proof.
  intros Ht. cbn zeta.
  destruct (table !! lower s) as [c|] eqn:Hc; cbn [default from_option id].
  - unfold vocabulary_tables in Ht.
    repeat (apply elem_of_cons in Ht as [->|Ht]);
      try (by apply elem_of_nil in Ht);
      apply elem_of_list_to_map_2 in Hc;
      repeat (apply elem_of_cons in Hc as [[= _ ->]|Hc]; [by vm_compute|]);
      by apply elem_of_nil in Hc.
  - by rewrite lower_idemp, Hc.
Qed.

Section template_hub_properties.
Variable str_of_object : value → string.

Lemma sanitize_term_fixed (table : gmap string string) (key : string)
    (payload q : gmap string value) :
  table ∈ vocabulary_tables →
  q !! key = Some (VStr (sanitize_term str_of_object table key payload)) →
  sanitize_term str_of_object table key q
  = sanitize_term str_of_object table key payload.
Proof.
  intros Ht Hq. unfold sanitize_term at 1. rewrite Hq. cbn [default from_option id py_str].
  unfold sanitize_term. by apply vocabulary_fixed_point.
Qed.

(** X15.  The sanitizer is idempotent: a payload it has produced is
    returned unchanged when it is sanitized again. *)
Theorem sanitize_idempotent (p p' : gmap string value) :
  sanitize str_of_object p = Ok p' →
  sanitize str_of_object p' = Ok p'.
Proof.
  intros H.
  destruct (sanitize_lookup_vocabulary str_of_object _ _ H) as (Hat & Hdt & Hrole).
  assert (at_map ∈ vocabulary_tables ∧ dt_map ∈ vocabulary_tables
          ∧ role_map ∈ vocabulary_tables) as (Tat & Tdt & Trole).
  { unfold vocabulary_tables. set_solver. }
  assert (standardize_constraint_keys p' = Ok p') as Hstd.
  { unfold sanitize in H.
    apply standardize_constraint_keys_inv in H as [[_ H]|(c & x & _ & _ & ->)]; [done|].
    unfold standardize_constraint_keys.
    by rewrite lookup_insert_eq, lookup_insert_ne, lookup_delete_eq. }
  unfold sanitize.
  rewrite (sanitize_term_fixed at_map "analytical_type" p p' Tat Hat).
  rewrite (insert_id p' _ _ Hat).
  rewrite (sanitize_term_fixed dt_map "data_type" p p' Tdt Hdt).
  rewrite (insert_id p' _ _ Hdt).
  rewrite (sanitize_term_fixed role_map "role" p p' Trole Hrole).
  rewrite (insert_id p' _ _ Hrole).
  exact Hstd.
Qed.
End template_hub_properties.

Lemma sanitize_idempotent_witness :
  sanitize (λ _, "") sanitized_template = Ok sanitized_template.
Proof.
  apply (sanitize_idempotent (λ _, "") legacy_template sanitized_template).
  vm_cast_no_check (eq_refl (Ok sanitized_template : result (gmap string value))).
Defined.

Lemma vocabulary_terms_lower (table : gmap string string) (s : string) :
  table ∈ vocabulary_tables →
  lower (default (lower s) (table !! lower s)) = default (lower s) (table !! lower s).
Proof.
  intros Ht.
  destruct (table !! lower s) as [c|] eqn:Hc; cbn [default from_option id].
  - unfold vocabulary_tables in Ht.
    repeat (apply elem_of_cons in Ht as [->|Ht]);
      try (by apply elem_of_nil in Ht);
      apply elem_of_list_to_map_2 in Hc;
      repeat (apply elem_of_cons in Hc as [[= _ ->]|Hc]; [by vm_compute|]);
      by apply elem_of_nil in Hc.
  - apply lower_idemp.
Qed.

(** X16.  What the sanitizer touches.  Every key other than the three
    vocabulary keys and [constraints] keeps its value (or its absence).
    The three vocabulary keys are present afterwards whatever the
    template held, each as a lower-case string; one that the template did
    not have is the empty string. *)
Theorem sanitize_footprint (str_of_object : value → string) (p p' : gmap string value) :
  sanitize str_of_object p = Ok p' →
  (∀ k, k ∉ ["analytical_type"; "data_type"; "role"; "constraints"] → p' !! k = p !! k)
  ∧ (∀ k, k ∈ ["analytical_type"; "data_type"; "role"] →
       ∃ s, p' !! k = Some (VStr s) ∧ lower s = s ∧ (p !! k = None → s = "")).
Proof.
  intros H. split.
  { intros k Hk. by apply (sanitize_lookup_other str_of_object p p' k). }
  destruct (sanitize_lookup_vocabulary str_of_object _ _ H) as (Hat & Hdt & Hrole).
  assert (at_map ∈ vocabulary_tables ∧ dt_map ∈ vocabulary_tables
          ∧ role_map ∈ vocabulary_tables) as (Tat & Tdt & Trole).
  { unfold vocabulary_tables. set_solver. }
  intros k Hk.
  repeat (apply elem_of_cons in Hk as [->|Hk]); [| | |by apply elem_of_nil in Hk].
  - eexists. split; [exact Hat|]. split.
    + unfold sanitize_term. by apply vocabulary_terms_lower.
    + intros Hn. unfold sanitize_term. rewrite Hn. by vm_compute.
  - eexists. split; [exact Hdt|]. split.
    + unfold sanitize_term. by apply vocabulary_terms_lower.
    + intros Hn. unfold sanitize_term. rewrite Hn. by vm_compute.
  - eexists. split; [exact Hrole|]. split.
    + unfold sanitize_term. by apply vocabulary_terms_lower.
    + intros Hn. unfold sanitize_term. rewrite Hn. by vm_compute.
Qed.

Lemma sanitize_footprint_witness :
  ∃ s, sanitized_template !! "role" = Some (VStr s) ∧ lower s = s.
Proof.
  destruct (sanitize_footprint (λ _, "") legacy_template sanitized_template) as [_ H].
  - vm_cast_no_check (eq_refl (Ok sanitized_template)).
  - destruct (H "role") as (s & Hs & Hl & _).
    + apply elem_of_cons. right. apply elem_of_cons. right. apply elem_of_cons. left.
      reflexivity.
    + exists s. split; [exact Hs|exact Hl].
Defined.

(** X17.  The overwrite guards of the Load Template button.  When the
    button's computation succeeds, the payload handed to the form has no
    [name], [alias] or [description] unless the matching box was ticked, in
    which case it has the template's; every key outside the guards and the
    sanitizer is the template's; the report says that the complete
    template was applied exactly when the three boxes were ticked; and the
    session has left edit mode with the hydration flag reset and the
    Ledger untouched. *)
Theorem load_template_guards (str_of_object : value → string) {A}
    (ov_name ov_alias ov_desc : bool) (t_data : gmap string value) (s : session A)
    (report : string) (payload : gmap string value) :
  (load_template str_of_object ov_name ov_alias ov_desc t_data s).2
    = Ok (report, payload) →
  payload !! "name" = (if ov_name then t_data !! "name" else None)
  ∧ payload !! "alias" = (if ov_alias then t_data !! "alias" else None)
  ∧ payload !! "description" = (if ov_desc then t_data !! "description" else None)
  ∧ (∀ k, k ∉ ["name"; "alias"; "description";
               "analytical_type"; "data_type"; "role"; "constraints"] →
       payload !! k = t_data !! k)
  ∧ (report = "Complete template applied." ↔ ov_name && ov_alias && ov_desc = true)
  ∧ (load_template str_of_object ov_name ov_alias ov_desc t_data s).1
    = Session (variables s) None false.
Proof.
  unfold load_template.
  destruct (overwrite_guards ov_name ov_alias ov_desc t_data) as [q skipped] eqn:Hg.
  cbn [fst snd]. intros H. inv_bind H. injection H as <- <-.
  assert (∀ k, k ∉ ["analytical_type"; "data_type"; "role"; "constraints"] →
            x !! k = q !! k) as Hother.
  { intros k Hk. by apply (sanitize_lookup_other str_of_object q x k). }
  split; [|split; [|split; [|split; [|split; [|done]]]]].
  - rewrite Hother by set_solver.
    destruct ov_name, ov_alias, ov_desc; injection Hg as <- <-;
      by rewrite ?lookup_delete_eq, ?lookup_delete_ne, ?lookup_delete_eq by done.
  - rewrite Hother by set_solver.
    destruct ov_name, ov_alias, ov_desc; injection Hg as <- <-;
      by rewrite ?lookup_delete_eq, ?lookup_delete_ne, ?lookup_delete_eq by done.
  - rewrite Hother by set_solver.
    destruct ov_name, ov_alias, ov_desc; injection Hg as <- <-;
      by rewrite ?lookup_delete_eq, ?lookup_delete_ne, ?lookup_delete_eq by done.
  - intros k Hk. rewrite Hother by set_solver.
    assert (k ≠ "name" ∧ k ≠ "alias" ∧ k ≠ "description") as (H1 & H2 & H3) by set_solver.
    destruct ov_name, ov_alias, ov_desc; injection Hg as <- <-;
      by rewrite ?lookup_delete_ne by done.
  - destruct ov_name, ov_alias, ov_desc; injection Hg as <- <-;
      (split; [by vm_compute|done]).
Qed.

Lemma load_template_guards_witness :
  ∃ report payload,
    (load_template (λ _, "") false true true legacy_template (Session [()] (Some 0%Z) true)).2
      = Ok (report, payload)
    ∧ payload !! "name" = None
    ∧ report ≠ "Complete template applied.".
Proof.
  destruct (load_template (λ _, "") false true true legacy_template
              (Session [()] (Some 0%Z) true)).2 as [[report payload]|e] eqn:E.
  - exists report, payload. split; [reflexivity|].
    destruct (load_template_guards (λ _, "") false true true legacy_template
                (Session [()] (Some 0%Z) true) report payload E)
      as (Hn & _ & _ & _ & Hr & _).
    split; [exact Hn|]. intros Hc. apply Hr in Hc. discriminate Hc.
  - exfalso. revert E. vm_compute. discriminate.
Defined.

(* ===================================================================== *)
(** * Further properties of the batch editor *)
(* ===================================================================== *)

Lemma prune_sections_report (new_at new_dt : value) (lv : loc) (sections : list string)
    (h h' : store) (pruned pruned' : list string) (var : gmap string entry) :
  var_objs h !! lv = Some var →
  prune_sections new_at new_dt lv sections h pruned = Ok (h', pruned') →
  ∀ k, k ∈ pruned'
       ↔ k ∈ pruned
         ∨ ∃ s ls sec, s ∈ sections ∧ var !! s = Some (ESec ls)
             ∧ sec_objs h !! ls = Some sec ∧ is_Some (sec !! k)
             ∧ is_field_visible k new_at new_dt = false.
Proof.
  revert h pruned. induction sections as [|s0 rest IH]; intros h pruned Hvar H k.
  { injection H as <- <-. split; [by left|]. intros [?|(s & ? & ? & Hs & _)]; [done|].
    by apply elem_of_nil in Hs. }
  cbn [prune_sections] in H. inv_bind H. destruct x as [h1 pruned1].
  unfold prune_section in Hx. rewrite (proj2 (get_var_Ok _ _ _) Hvar) in Hx.
  cbn [mbind result_bind] in Hx.
  destruct (var !! s0) as [[a|xs|ls0]|] eqn:Hs0; try discriminate.
  - inv_bind Hx. rename x into sec0. apply get_sec_Ok in Hx0.
    injection Hx as <- <-. rewrite del_keys_to_remove in H.
    rewrite (IH (set_sec h ls0 (visible_part new_at new_dt sec0)) _ Hvar H k).
    cbn [set_sec sec_objs]. rewrite elem_of_app, elem_of_keys_to_remove. split.
    + intros [[?|[Hk Hvis]]|(s & ls & sec & Hs & Hsv & Hsec & Hk & Hvis)].
      * by left.
      * right. exists s0, ls0, sec0. split; [set_solver|done].
      * destruct (decide (ls0 = ls)) as [<-|Hne].
        -- rewrite lookup_insert_eq in Hsec. injection Hsec as <-.
           destruct Hk as [v Hv]. apply visible_part_lookup_Some in Hv as [_ ?]. congruence.
        -- rewrite lookup_insert_ne in Hsec by done.
           right. exists s, ls, sec. split; [set_solver|done].
    + intros [?|(s & ls & sec & Hs & Hsv & Hsec & Hk & Hvis)]; [by left; left|].
      destruct (decide (ls0 = ls)) as [<-|Hne].
      * left. right. by simplify_eq.
      * apply elem_of_cons in Hs as [->|Hs]; [congruence|].
        right. exists s, ls, sec. rewrite lookup_insert_ne by done. done.
  - injection Hx as <- <-. rewrite (IH h pruned Hvar H k). split.
    + intros [?|(s & ls & sec & Hs & ?)]; [by left|].
      right. exists s, ls, sec. split; [set_solver|done].
    + intros [?|(s & ls & sec & Hs & Hsv & ?)]; [by left|].
      apply elem_of_cons in Hs as [->|Hs]; [congruence|].
      right. by exists s, ls, sec.
Qed.

(** X18.  The pruning report is exact.  When the prune step returns, a key
    is in [pruned_for_this_var] if and only if, before the step, it was a
    key of one of the variable's four metadata sections and is not visible
    for the variable's types (with their defaults): nothing is removed
    without being reported and nothing is reported that was not there. *)
Theorem pruning_report_exact (h h' : store) (lv : loc) (var : gmap string entry)
    (new_at new_dt : value) (pruned : list string) :
  var_objs h !! lv = Some var →
  effective_type var "analytical_type" "continuous" new_at →
  effective_type var "data_type" "float64" new_dt →
  prune_step lv h = Ok (h', pruned) →
  ∀ k, k ∈ pruned
       ↔ ∃ s ls sec, s ∈ metadata_sections ∧ var !! s = Some (ESec ls)
           ∧ sec_objs h !! ls = Some sec ∧ is_Some (sec !! k)
           ∧ is_field_visible k new_at new_dt = false.
Proof.
  intros Hvar Hat Hdt H k. unfold prune_step in H.
  rewrite (proj2 (get_var_Ok _ _ _) Hvar) in H. cbn [mbind result_bind] in H.
  rewrite (effective_type_read h _ _ _ _ Hat) in H. cbn [mbind result_bind] in H.
  rewrite (effective_type_read h _ _ _ _ Hdt) in H. cbn [mbind result_bind] in H.
  rewrite (prune_sections_report _ _ _ _ _ _ _ _ _ Hvar H k).
  split; [|by right]. intros [Hk|?]; [|done]. by apply elem_of_nil in Hk.
Qed.

Lemma pruning_report_exact_witness :
  ∃ h' pruned, prune_step 0%nat untyped_store = Ok (h', pruned)
    ∧ "allowed_values" ∈ pruned.
Proof.
  destruct (prune_step 0%nat untyped_store) as [[h' pruned]|e] eqn:E.
  - exists h', pruned. split; [reflexivity|].
    apply (pruning_report_exact untyped_store h' 0%nat untyped_var
             (VStr "continuous") (VStr "float64") pruned
             eq_refl (or_introl (conj eq_refl eq_refl))
             (or_introl (conj eq_refl eq_refl)) E).
    exists "constraints", 0%nat,
      (<["min_value" := VInt 1]> (<["allowed_values" := VList [VStr "A"; VStr "B"]]> ∅)).
    split; [unfold metadata_sections; apply elem_of_cons; left; reflexivity|].
    split; [reflexivity|]. split; [reflexivity|].
    split; [eexists; reflexivity|reflexivity].
  - vm_compute in E. discriminate E.
Defined.

Lemma active_updates_zero (p : patch) :
  active_updates p = 0%nat ↔ root p = ∅ ∧ map_Forall (λ _ fields, fields = ∅) (nested p).
Proof.
  unfold active_updates.
  assert (map_fold (λ (_ : string) (fields : gmap string value) n, (size fields + n)%nat)
            0%nat (nested p) = 0%nat
          ↔ map_Forall (λ _ fields, fields = ∅) (nested p)) as <-.
  { apply (map_fold_weak_ind (λ n (m : gmap string (gmap string value)),
             n = 0%nat ↔ map_Forall (λ _ fields, fields = ∅) m)).
    - split; [intros _; apply map_Forall_empty|done].
    - intros s fields m n Hs IH. rewrite map_Forall_insert by done.
      rewrite <- IH, <- map_size_empty_iff. lia. }
  rewrite <- map_size_empty_iff. lia.
Qed.

(** X19.  The two guards of Phase 3.  With nothing selected the review
    stops at the first warning; with a selection and a patch that updates
    nothing it stops at the second, and a patch updates nothing exactly
    when its root is empty and each of its nested sections is an empty
    dict, however many sections it names.  In both cases no variable is
    copied: the store is the one the review started from. *)
Theorem review_guards (st : batch_state) (h' : store) :
  (review st = Ok (NothingSelected, h')
   ↔ batch_selected_indices st = [] ∧ h' = objects st)
  ∧ (review st = Ok (NoUpdates, h')
     ↔ batch_selected_indices st ≠ []
       ∧ root (batch_patch st) = ∅
       ∧ map_Forall (λ _ fields, fields = ∅) (nested (batch_patch st))
       ∧ h' = objects st).
Proof.
  unfold review. pose proof (active_updates_zero (batch_patch st)) as Hzero.
  case_bool_decide as Hsel.
  { apply length_zero_iff_nil in Hsel. split.
    - split; [by intros [= <-]|by intros [_ ->]].
    - split; [done|]. by intros [? _]. }
  assert (batch_selected_indices st ≠ []) as Hne.
  { intros E. by rewrite E in Hsel. }
  case_bool_decide as Hupd.
  { apply Hzero in Hupd as [Hroot Hnested]. split.
    - split; [done|]. by intros [? _].
    - split; [by intros [= <-]|by intros (_ & _ & _ & ->)]. }
  split.
  - split; [|by intros [? _]].
    intros H. inv_bind H. destruct x as [us h1]. discriminate.
  - split.
    + intros H. inv_bind H. destruct x as [us h1]. discriminate.
    + intros (_ & Hroot & Hnested & _). destruct Hupd. by apply Hzero.
Qed.

Lemma cascade_target_fresh (p : patch) (variables : list loc) (idx : Z) (h h' : store)
    (u : Z * loc * list string) :
  cascade_target p variables idx h = Ok (u, h') →
  var_objs h !! u.1.2 = None ∧ is_Some (var_objs h' !! u.1.2).
Proof.
  unfold cascade_target. intros H.
  inv_bind H. inv_bind H. destruct x0 as [lv h1].
  inv_bind H. inv_bind H. inv_bind H. destruct x2 as [h4 pruned]. injection H as <- <-.
  cbn [fst snd]. split.
  - by destruct (deepcopy_frame _ _ _ _ Hx0) as [_ [? _]].
  - unfold prune_step in Hx3. inv_bind Hx3. apply get_var_Ok in Hx4.
    do 2 inv_bind Hx3.
    destruct (prune_sections_spec _ _ _ _ _ _ _ _ _ Hx4 Hx3) as (-> & _).
    by eexists.
Qed.

(** X20.  Every updated variable the review computes is a new object.
    There is one per selected index, in the order of the selection; none
    of them is an object of the store the review started from, all of them
    are objects of the store it ends with, and no two of them are the same
    object, even when an index is selected twice. *)
Theorem updated_variables_are_fresh (st : batch_state)
    (us : list (Z * loc * list string)) (n : nat) (h' : store) :
  review st = Ok (Pruning us n, h') →
  (λ u, u.1.1) <$> us = batch_selected_indices st
  ∧ NoDup ((λ u, u.1.2) <$> us)
  ∧ ∀ u, u ∈ us →
      var_objs (objects st) !! u.1.2 = None ∧ is_Some (var_objs h' !! u.1.2).
Proof.
  unfold review. intros H. repeat case_bool_decide; try discriminate.
  inv_bind H. destruct x as [us1 h1]. injection H as -> _ ->.
  split; [by eapply compute_updates_indices|].
  revert Hx. generalize (objects st) as h, (batch_selected_indices st) as selected.
  clear. intros h selected. revert h us.
  induction selected as [|idx rest IH]; intros h us H.
  { injection H as <- <-. split; [constructor|]. by intros u ?%elem_of_nil. }
  cbn [compute_updates] in H. inv_bind H. destruct x as [u h1].
  inv_bind H. destruct x as [us1 h2]. injection H as <- <-.
  destruct (cascade_target_fresh _ _ _ _ _ _ Hx) as [Hnew Hthere].
  pose proof (cascade_target_frame _ _ _ _ _ _ Hx) as [Hext1 _].
  pose proof (compute_updates_frame _ _ _ _ _ _ Hx0) as [Hext2 _].
  destruct (IH _ _ Hx0) as [Hnd Hrest].
  split.
  - cbn [fmap list_fmap]. apply NoDup_cons. split; [|done].
    intros (u' & Heq & Hin)%list_elem_of_fmap.
    destruct (Hrest u' Hin) as [Hnone _]. rewrite <- Heq in Hnone.
    destruct Hthere as [var Hvar]. congruence.
  - intros u' [->|Hin]%elem_of_cons.
    + split; [done|]. destruct Hthere as [var Hvar]. exists var.
      by eapply lookup_weaken.
    + destruct (Hrest u' Hin) as [Hnone Hsome]. split; [|done].
      destruct (var_objs h !! u'.1.2) as [var|] eqn:E; [|done].
      eapply lookup_weaken in E; [|exact Hext1]. congruence.
Qed.

Lemma updated_variables_are_fresh_witness :
  NoDup ((λ u : Z * loc * list string, u.1.2)
           <$> [(0%Z, 1%nat, ["min_value"; "max_value"; "allowed_values"])]).
Proof.
  apply (updated_variables_are_fresh scenario_D_state
           [(0%Z, 1%nat, ["min_value"; "max_value"; "allowed_values"])] 3 scenario_D_after).
  vm_cast_no_check
    (eq_refl (Ok (Pruning [(0%Z, 1%nat, ["min_value"; "max_value"; "allowed_values"])] 3,
                  scenario_D_after) : result (preview * store))).
Defined.

Lemma apply_nested_section_keeps (h h' : store) (lv : loc) (section : string)
    (fields : gmap string value) (var : gmap string entry) :
  apply_nested_section lv section fields (Ok h) = Ok h' →
  var_objs h !! lv = Some var →
  ∃ var', var_objs h' !! lv = Some var' ∧ ∀ k e, var !! k = Some e → var' !! k = Some e.
Proof.
  unfold apply_nested_section. intros H Hvar. cbn [mbind result_bind] in H.
  case_bool_decide; [injection H as <-; by exists var|].
  rewrite (proj2 (get_var_Ok _ _ _) Hvar) in H. cbn [mbind result_bind] in H.
  inv_bind H. destruct x as [ls h1]. inv_bind H. injection H as <-.
  destruct (var !! section) as [[a|xs|l]|] eqn:Hs; try discriminate.
  - injection Hx as <- <-. by exists var.
  - injection Hx as <- <-. exists (<[section := ESec (fresh (dom (sec_objs h)))]> var).
    cbn [set_sec set_var var_objs]. split; [by rewrite lookup_insert_eq|].
    intros k e Hk. rewrite lookup_insert_ne; [done|]. intros <-. congruence.
Qed.

Lemma apply_nested_keeps (p : patch) (h h' : store) (lv : loc) (var : gmap string entry) :
  apply_nested p lv h = Ok h' →
  var_objs h !! lv = Some var →
  ∃ var', var_objs h' !! lv = Some var' ∧ ∀ k e, var !! k = Some e → var' !! k = Some e.
Proof.
  unfold apply_nested. intros H Hvar. revert h' H.
  apply (map_fold_weak_ind (λ acc (m : gmap string (gmap string value)), ∀ h',
    acc = Ok h' →
    ∃ var', var_objs h' !! lv = Some var' ∧ ∀ k e, var !! k = Some e → var' !! k = Some e)).
  - intros h' [= <-]. by exists var.
  - intros section fields m acc _ IH h' Hstep.
    destruct acc as [h1|e]; [|discriminate].
    destruct (IH h1 eq_refl) as (var1 & Hvar1 & Hkeep1).
    destruct (apply_nested_section_keeps _ _ _ _ _ _ Hstep Hvar1) as (var2 & Hvar2 & Hkeep2).
    exists var2. split; [done|]. intros k e Hk. by apply Hkeep2, Hkeep1.
Qed.

(** X21.  What an updated variable holds outside its sections.  The copy
    the cascade prepares for a selected index has every root value of the
    patch, and each scalar or list of the Ledger entry that the patch's
    root does not name is in it unchanged. *)
Theorem updated_variable_carries_patch (p : patch) (variables : list loc) (idx : Z)
    (h h' : store) (u : Z * loc * list string) :
  cascade_target p variables idx h = Ok (u, h') →
  ∃ lv0 var0 var',
    py_getitem variables idx = Ok lv0
    ∧ var_objs h !! lv0 = Some var0
    ∧ var_objs h' !! u.1.2 = Some var'
    ∧ (∀ k a, root p !! k = Some a → var' !! k = Some (EAtom a))
    ∧ (∀ k e, root p !! k = None → var0 !! k = Some e → (∀ l, e ≠ ESec l) →
         var' !! k = Some e).
Proof.
  unfold cascade_target. intros H.
  inv_bind H. rename x into lv0. inv_bind H. destruct x as [lv h1].
  inv_bind H. rename x into h2. inv_bind H. rename x into h3.
  inv_bind H. destruct x as [h4 pruned]. injection H as <- <-. cbn [fst snd].
  (* the copy *)
  unfold deepcopy in Hx0. inv_bind Hx0. rename x into var0. apply get_var_Ok in Hx4.
  inv_bind Hx0. destruct x as [[memo secs] out]. injection Hx0 as <- <-.
  destruct (copy_entries_content _ _ _ _ _ Hx5) as (_ & Hout & _).
  (* the root patch *)
  unfold apply_root, get_var in Hx1. cbn [var_objs] in Hx1.
  rewrite lookup_insert_eq in Hx1. cbn [mbind result_bind] in Hx1. injection Hx1 as <-.
  rewrite dict_update_union in Hx2.
  (* the nested patch *)
  destruct (apply_nested_keeps _ _ _ _ ((EAtom <$> root p) ∪ out) Hx2) as (var3 & Hvar3 & Hkeep).
  { cbn [set_var var_objs]. by rewrite lookup_insert_eq. }
  (* the prune step *)
  unfold prune_step in Hx3. inv_bind Hx3. apply get_var_Ok in Hx0.
  do 2 inv_bind Hx3.
  destruct (prune_sections_spec _ _ _ _ _ _ _ _ _ Hx0 Hx3) as (Hsame & _).
  exists lv0, var0, var3. split; [done|]. split; [done|].
  split; [by rewrite Hsame|]. split.
  - intros k a Hk. apply Hkeep. apply lookup_union_Some_l. by rewrite lookup_fmap, Hk.
  - intros k e Hroot Hk Hne. apply Hkeep.
    rewrite lookup_union_r by (by rewrite lookup_fmap, Hroot).
    rewrite Hout, Hk. destruct e; [done|done|]. by destruct (Hne l).
Qed.

Lemma updated_variable_carries_patch_witness :
  ∃ var', var_objs scenario_D_after !! 1%nat = Some var'
    ∧ var' !! "analytical_type" = Some (EAtom (AStr "binary"))
    ∧ var' !! "name" = Some (EAtom (AStr "smoker")).
Proof.
  destruct (updated_variable_carries_patch
              (Patch (<["analytical_type" := AStr "binary"]> ∅) ∅) [0%nat] 0
              scenario_D_store scenario_D_after
              (0%Z, 1%nat, ["min_value"; "max_value"; "allowed_values"]))
    as (lv0 & var0 & var' & Hlv0 & Hvar0 & Hvar' & Hroot & Hrest).
  - vm_cast_no_check
      (eq_refl (Ok ((0%Z, 1%nat, ["min_value"; "max_value"; "allowed_values"]),
                    scenario_D_after)
                : result ((Z * loc * list string) * store))).
  - exists var'. split; [exact Hvar'|]. split.
    + apply Hroot. reflexivity.
    + apply (Hrest "name" (EAtom (AStr "smoker"))).
      * reflexivity.
      * injection Hlv0 as <-. cbn in Hvar0. injection Hvar0 as <-. reflexivity.
      * discriminate.
Defined.

(* ===================================================================== *)
(** * The type-driven selectors of the form *)
(* ===================================================================== *)

Lemma val_in_true (v : value) (opts : list string) :
  val_in v opts = true ↔ ∃ s, v = VStr s ∧ s ∈ opts.
Proof.
  unfold val_in. rewrite existsb_exists. split.
  - intros (s & Hin & Hs). apply is_str_true_iff in Hs. exists s.
    split; [done|]. by apply list_elem_of_In.
  - intros (s & -> & Hin). exists s. split; [by apply list_elem_of_In|apply is_str_self].
Qed.

Lemma option_index_found (opts : list string) (s : string) :
  s ∈ opts → opts !! option_index opts (VStr s) = Some s.
Proof.
  intros Hin. unfold option_index.
  destruct (list_find (λ o, is_str (VStr s) o = true) opts) as [[i o]|] eqn:E.
  - apply list_find_Some in E as (Hi & Ho & _). apply is_str_true_iff in Ho.
    by injection Ho as ->.
  - apply list_find_None in E. rewrite Forall_forall in E.
    destruct (E s Hin). apply is_str_self.
Qed.

Lemma option_index_missing (opts : list string) (v : value) :
  val_in v opts = false → option_index opts v = 0%nat.
Proof.
  intros Hv. unfold option_index.
  destruct (list_find (λ o, is_str v o = true) opts) as [[i o]|] eqn:E; [|done].
  apply list_find_Some in E as (Hi & Ho & _).
  assert (val_in v opts = true) as Ht; [|congruence].
  apply val_in_true. apply is_str_true_iff in Ho. exists o. split; [done|].
  by eapply list_elem_of_lookup_2.
Qed.

Lemma selector_fields_visible (name : string) (analytical_type : value) :
  name ∈ ["data_type"; "role"] → is_field_visible name analytical_type VNone = true.
Proof.
  intros Hn.
  assert (name ∉ matrix_fields) as Hf.
  { unfold matrix_fields. intros Hm.
    apply elem_of_cons in Hn as [->|Hn]; [|apply list_elem_of_singleton in Hn as ->];
      repeat (apply elem_of_cons in Hm as [Hm|Hm]; [discriminate Hm|]);
      by apply elem_of_nil in Hm. }
  unfold matrix_fields in Hf. outside_matrix.
Qed.

Lemma edit_value_of_dict (d : gmap string value) (key : string) :
  (if truthy (VDict d) then py_get (VDict d) key VNone else Ok VNone)
  = Ok (default VNone (d !! key)).
Proof.
  cbn. case_bool_decide as Hd; cbn; [|done]. by rewrite Hd, lookup_empty.
Qed.

(** X22.  The role selector always opens on a valid role.  Its options are
    the roles the taxonomy allows for the current types; the role of the
    variable being edited is preselected when it is one of them; otherwise
    the fallback [feature] is, except where [feature] itself is not
    allowed (time-index variables), where the selector falls on the only
    role there is, [time_index]. *)
Theorem role_selector_opens_on_valid_role (current_at current_dt : value)
    (edit_data : gmap string value) :
  ∃ i r,
    role_selector current_at current_dt (VDict edit_data)
      = Ok (Some (get_filtered_roles current_at current_dt, i))
    ∧ get_filtered_roles current_at current_dt !! i = Some r
    ∧ (∀ s, edit_data !! "role" = Some (VStr s) →
         s ∈ get_filtered_roles current_at current_dt → r = s)
    ∧ ((∀ s, edit_data !! "role" = Some (VStr s) →
          s ∉ get_filtered_roles current_at current_dt) →
       r = "feature"
       ∨ (r = "time_index" ∧ get_filtered_roles current_at current_dt = ["time_index"])).
Proof.
  unfold role_selector. rewrite edit_value_of_dict. cbn [mbind result_bind].
  unfold render_enum_field. rewrite selector_fields_visible by set_solver.
  cbn [negb]. rewrite bool_decide_eq_false_2 by done.
  set (roles := get_filtered_roles current_at current_dt).
  assert ("feature" ∈ roles ∨ roles = ["time_index"]) as Hroles.
  { subst roles. unfold get_filtered_roles, all_roles.
    destruct (_ || _); [by right|].
    repeat (destruct (is_str current_at _); [left; set_solver|]).
    left. set_solver. }
  set (v := default VNone (edit_data !! "role")).
  assert (∀ s, v = VStr s ↔ edit_data !! "role" = Some (VStr s)) as Hv.
  { intros s. subst v. destruct (edit_data !! "role") as [w|]; cbn; [|done].
    split; [by intros ->|by intros [= ->]]. }
  destruct (val_in v roles) eqn:Hin; cbn [negb].
  - apply val_in_true in Hin as (s & Hs & Hin). rewrite Hs.
    exists (option_index roles (VStr s)), s. split; [done|].
    split; [by apply option_index_found|]. split.
    + intros s' Hs' _. apply Hv in Hs'. congruence.
    + intros Hnot. destruct (Hnot s); [by apply Hv|done].
  - destruct Hroles as [Hf|Hti].
    + exists (option_index roles (VStr "feature")), "feature". split; [done|].
      split; [by apply option_index_found|]. split; [|by left].
      intros s Hs Hsin. assert (val_in v roles = true) as Ht; [|congruence].
      apply val_in_true. exists s. split; [by apply Hv|done].
    + exists 0%nat, "time_index". rewrite Hti. split; [done|]. split; [done|]. split.
      * intros s Hs Hsin. assert (val_in v roles = true) as Ht; [|congruence].
        apply val_in_true. exists s. split; [by apply Hv|by rewrite Hti].
      * intros _. by right.
Qed.

Lemma allowed_data_types_nonempty (s : string) :
  ∃ opts, get_filtered_data_types (VStr s) = Ok opts ∧ opts ≠ [].
Proof.
  cbn [get_filtered_data_types]. eexists. split; [done|].
  destruct (data_type_mapping !! s) as [l|] eqn:Hl; cbn [default from_option id]; [|done].
  unfold data_type_mapping in Hl. apply elem_of_list_to_map_2 in Hl.
  repeat (apply elem_of_cons in Hl as [[= _ ->]|Hl]; [done|]).
  by apply elem_of_nil in Hl.
Qed.

(** X23.  The data type selector offers exactly the data types the taxonomy
    allows for the analytical type and always opens on one of them: on the
    data type of the variable being edited when it is allowed, and on the
    first allowed one otherwise. *)
Theorem data_type_selector_opens_on_valid_type (current_at : string)
    (edit_data : gmap string value) :
  ∃ opts i t,
    get_filtered_data_types (VStr current_at) = Ok opts
    ∧ data_type_selector (VStr current_at) (VDict edit_data) = Ok (Some (opts, i))
    ∧ opts !! i = Some t
    ∧ (∀ s, edit_data !! "data_type" = Some (VStr s) → s ∈ opts → t = s)
    ∧ ((∀ s, edit_data !! "data_type" = Some (VStr s) → s ∉ opts) → opts !! 0%nat = Some t).
Proof.
  unfold data_type_selector. rewrite edit_value_of_dict. cbn [mbind result_bind].
  unfold render_enum_field. rewrite selector_fields_visible by set_solver.
  cbn [negb]. rewrite bool_decide_eq_true_2 by done.
  destruct (allowed_data_types_nonempty current_at) as (opts & Hopts & Hne).
  rewrite Hopts. cbn [mbind result_bind].
  set (v := default VNone (edit_data !! "data_type")).
  assert (∀ s, v = VStr s ↔ edit_data !! "data_type" = Some (VStr s)) as Hv.
  { intros s. subst v. destruct (edit_data !! "data_type") as [w|]; cbn; [|done].
    split; [by intros ->|by intros [= ->]]. }
  destruct (val_in v opts) eqn:Hin.
  - apply val_in_true in Hin as (s & Hs & Hin). rewrite Hs.
    exists opts, (option_index opts (VStr s)), s. split; [done|]. split; [done|].
    split; [by apply option_index_found|]. split.
    + intros s' Hs' _. apply Hv in Hs'. congruence.
    + intros Hnot. destruct (Hnot s); [by apply Hv|done].
  - rewrite (option_index_missing _ _ Hin).
    destruct opts as [|t opts]; [done|].
    exists (t :: opts), 0%nat, t. split; [done|]. split; [done|]. split; [done|]. split; [|done].
    intros s Hs Hsin. assert (val_in v (t :: opts) = true) as Ht; [|congruence].
    apply val_in_true. exists s. split; [by apply Hv|done].
Qed.
